(** * Planet notebooks: a shallow embedding of the notebook logic

    The notebooks of this repository are sequential scripts.  The few
    places where they compute something of their own are embedded here:

    - [Grouping]: grouping of scene ids by acquisition date
      (analysis-ready-data/ard_2_use_case_1, step 3);
    - [GroundTruth]: filtering and reprojection of the survey features
      (crop-classification, "Identify Datasets");
    - [Ndvi]: the NDVI band arithmetic on the arrays read by rasterio
      (ndvi notebook), and the bandmath tool of the orders notebooks;
    - [Polling]: the asset activation loop of the Data API tutorial;
    - [Handlers]: the two [try]/[except NameError] cells;
    - [Orders]: order submission, wait and download of use case 1;
    - [Locations]: [get_download_locations] and its module-level list.

    Python values are modelled by the data the code touches: dictionaries
    with a fixed set of keys as records, dictionaries used as maps as
    [gmap], Python sets as [gset], lists as [list]. *)

From Stdlib Require Import ZArith QArith Lqa Ascii String List.
From stdpp Require Import base option list strings gmap sets fin_maps.

Local Open Scope string_scope.
Local Open Scope list_scope.

(** ** Python exceptions and results

    A Python computation either returns a value or raises.  Only the class
    of the exception matters to the notebooks. *)

Inductive exception :=
  | KeyError (key : string)
  | IndexError
  | NameError (name : string)
  | LibraryError (cls : string).

Inductive result (A : Type) :=
  | Ok (a : A)
  | Raise (e : exception).
Arguments Ok {A} a.
Arguments Raise {A} e.

(** Sequencing stops at the first exception, as Python's does; with these
    instances stdpp's [x ← r; k] notation reads as a sequence of
    statements. *)
Global Instance result_ret : MRet result := λ A a, Ok a.
Global Instance result_bind : MBind result := λ A B k r,
  match r with Ok a => k a | Raise e => Raise e end.

Global Instance exception_eq_dec : EqDecision exception.
Proof. solve_decision. Defined.

(** ** Grouping scene ids by acquisition date *)

Module Grouping.

(** [s.split(sep)[0]]: the part of [s] before the first occurrence of the
    separator character, all of [s] when it does not occur. *)
Fixpoint split_head (sep : ascii) (s : string) : string :=
  match s with
  | EmptyString => EmptyString
  | String c s' =>
      if Ascii.eqb c sep then EmptyString else String c (split_head sep s')
  end.

(** A search result item: [item['id']] and
    [item['properties']['acquired']]. *)
Record item := Item { item_id : string; acquired : string }.

Definition get_acquired_date (i : item) : string :=
  split_head "T"%char (acquired i).

Definition get_date_item_ids (date : string) (all_items : list item)
  : list string :=
  item_id <$> filter (λ i, get_acquired_date i = date) all_items.

(** [dict(...)] over the elements of a [set]: the keys are pairwise
    distinct, so the order in which the set is traversed does not show
    in the resulting dictionary. *)
Definition get_ids_by_date (items : list item) : gmap string (list string) :=
  let acquired_dates := get_acquired_date <$> items in
  let unique_acquired_dates : gset string := list_to_set acquired_dates in
  set_to_map (λ d, (d, get_date_item_ids d items)) unique_acquired_dates.

(** Reference for the refinement statement: the partition of the item
    list by acquired date built in one traversal, appending each id to
    the group of its date. *)
Definition single_pass_step (m : gmap string (list string)) (i : item)
  : gmap string (list string) :=
  let d := get_acquired_date i in
  <[d := default [] (m !! d) ++ [item_id i]]> m.

Definition ids_by_date_single_pass (items : list item)
  : gmap string (list string) :=
  foldl single_pass_step ∅ items.

(** A small search result used to exercise the definitions. *)
Definition sample_items : list item :=
  [ Item "20190401_a" "2019-04-01T16:21:12.4Z";
    Item "20190403_b" "2019-04-03T16:30:00.0Z";
    Item "20190401_c" "2019-04-01T16:21:14.9Z" ].

End Grouping.


(** ** Ground truth features: filter to agricultural classes, reproject *)

Module GroundTruth.

(** A value of a shapefile attribute as fiona hands it over. *)
Inductive attr :=
  | AStr (s : string)
  | ANum (z : Z)
  | ANull.

Global Instance attr_eq_dec : EqDecision attr.
Proof. solve_decision. Defined.

Section with_geometry.

(** Geometries and their reprojection belong to shapely and pyproj:
    [transform src dst g] stands for
    [mapping(transform(partial(pyproj.transform, Proj(init=src),
    Proj(init=dst)), shape(g)))]. *)
Context {geometry : Type}.
Variable transform : string → string → geometry → geometry.

(** A fiona feature: [feat['id']], [feat['geometry']] and the attribute
    dictionary [feat['properties']]. *)
Record feature := Feature {
  feat_id : string;
  feat_geometry : geometry;
  properties : gmap string attr;
}.

(** What [fiona.open(filename)] gives: the coordinate reference system
    dictionary and the sequence of features. *)
Record dataset := Dataset {
  crs : gmap string string;
  records : list feature;
}.

Definition define_to_wkt_projection (d : dataset)
  : result (geometry → geometry) :=
  match crs d !! "init" with
  | None => Raise (KeyError "init")
  | Some src_proj =>
      let dst_proj := "epsg:4326" in
      Ok (transform src_proj dst_proj)
  end.

(** [feat['geometry'] = mapping(g2)]: the feature is updated in place,
    its other keys are left alone. *)
Definition project_feature (feat : feature)
    (projection_fcn : geometry → geometry) : feature :=
  {| feat_id := feat_id feat;
     feat_geometry := projection_fcn (feat_geometry feat);
     properties := properties feat |}.

Definition agg_classes : list string :=
  ["G"; "R"; "F"; "P"; "T"; "D"; "C"; "V"].

(** [x in agg_classes] compares with [==]: only a string can be equal to
    one of the labels. *)
Definition is_agricultural (feat : feature) : result bool :=
  match properties feat !! "CLASS1" with
  | None => Raise (KeyError "CLASS1")
  | Some (AStr c) => Ok (bool_decide (c ∈ agg_classes))
  | Some _ => Ok false
  end.

(** The [for feat in survey_data] loop, [features] being the list built
    so far. *)
Fixpoint load_loop (to_wkt_projection : geometry → geometry)
    (survey_data : list feature) (features : list feature)
  : result (list feature) :=
  match survey_data with
  | [] => Ok features
  | feat :: rest =>
      keep ← is_agricultural feat;
      if keep : bool
      then load_loop to_wkt_projection rest
             (features ++ [project_feature feat to_wkt_projection])
      else load_loop to_wkt_projection rest features
  end.

Definition load_ground_truth (survey_data : dataset)
  : result (list feature) :=
  to_wkt_projection ← define_to_wkt_projection survey_data;
  load_loop to_wkt_projection (records survey_data) [].

(** The CLASS1 attribute is one of the eight agricultural labels. *)
Definition agricultural_class1 (f : feature) : Prop :=
  properties f !! "CLASS1" ∈
    (Some ∘ AStr) <$> ["G"; "R"; "F"; "P"; "T"; "D"; "C"; "V"].

Global Instance agricultural_class1_dec f : Decision (agricultural_class1 f).
Proof. unfold agricultural_class1. apply _. Defined.

End with_geometry.

Arguments feature : clear implicits.
Arguments dataset : clear implicits.

(** A survey of four parcels: grain, urban, vineyard and one without a
    class; points stand for geometries and the projection shifts them. *)
Definition sample_survey : dataset (Z * Z) :=
  {| crs := {[ "init" := "epsg:26910" ]};
     records :=
       [ Feature "0" (1, 1)%Z {[ "CLASS1" := AStr "G" ]};
         Feature "1" (2, 2)%Z {[ "CLASS1" := AStr "U" ]};
         Feature "2" (3, 3)%Z {[ "CLASS1" := AStr "V" ]};
         Feature "3" (4, 4)%Z {[ "CLASS1" := ANull ]} ] |}.

Definition sample_transform (src dst : string) (g : Z * Z) : Z * Z :=
  (g.1 + 100, g.2 + 100)%Z.

End GroundTruth.

(** ** NDVI band arithmetic *)

Module Ndvi.

(** The bands read by [src.read(3)] and [src.read(4)] from a PlanetScope
    analytic GeoTIFF are two-dimensional arrays of unsigned 16-bit
    integers, kept here as rows of [Z] in the range of the type. *)
Definition uint16_modulus : Z := 65536.

Definition is_uint16 (z : Z) : Prop := (0 ≤ z < uint16_modulus)%Z.

Abbreviation band := (list (list Z)).

Definition band_ok (b : band) : Prop := Forall (Forall is_uint16) b.

(** The shape of an array: the lengths of its rows. *)
Definition shape {A} (a : list (list A)) : list nat := length <$> a.

Definition pixel {A} (a : list (list A)) (i j : nat) : option A :=
  row ← a !! i; row !! j.

(** A float64 value.  The finite values are kept as the exact rationals
    they approximate: the rounding error of the one division is left out,
    the special values are not. *)
Inductive fval :=
  | Fin (q : Q)
  | PInf
  | NInf
  | NaN.

Definition isnan (v : fval) : bool :=
  match v with NaN => true | _ => false end.

(** Equality of float values, finite ones as rationals. *)
Definition feq (a b : fval) : Prop :=
  match a, b with
  | Fin p, Fin q => (p == q)%Q
  | PInf, PInf | NInf, NInf | NaN, NaN => True
  | _, _ => False
  end.

(** Elementwise operation on two arrays of the same shape, as the two
    bands of one raster are.  (On other shapes numpy broadcasts or
    raises; the statements below are about equal shapes.) *)
Definition array_map2 {A B C} (f : A → B → C)
    (a : list (list A)) (b : list (list B)) : list (list C) :=
  zip_with (zip_with f) a b.

(** [a.astype(float)]: every uint16 is exactly a float64. *)
Definition astype_float (a : band) : list (list Q) :=
  (λ row : list Z, inject_Z <$> row) <$> a.

(** [a + b] on uint16 arrays stays uint16 and wraps around. *)
Definition uint16_add (x y : Z) : Z := ((x + y) mod uint16_modulus)%Z.

(** float64 by uint16 division under
    [np.seterr(divide='ignore', invalid='ignore')]: no exception and no
    warning, a zero divisor gives an infinity or, for 0/0, NaN. *)
Definition float_div (x : Q) (d : Z) : fval :=
  if decide (d = 0%Z) then
    match (x ?= 0)%Q with
    | Gt => PInf
    | Lt => NInf
    | Eq => NaN
    end
  else Fin (x / inject_Z d).

(** [ndvi = (band_nir.astype(float) - band_red.astype(float))
            / (band_nir + band_red)] *)
Definition ndvi (band_nir band_red : band) : list (list fval) :=
  array_map2 float_div
    (array_map2 Qminus (astype_float band_nir) (astype_float band_red))
    (array_map2 uint16_add band_nir band_red).

(** What the expression computes at one pixel. *)
Definition ndvi_pixel (nir red : Z) : fval :=
  float_div (inject_Z nir - inject_Z red) (uint16_add nir red).

(** Reference definition of the glossary: (NIR-Red)/(NIR+Red). *)
Definition ndvi_reference (nir red : Z) : Q :=
  (inject_Z nir - inject_Z red) / (inject_Z nir + inject_Z red).

(** *** Range check and histogram input *)

(** The order of float64 values other than NaN. *)
Definition fleb (a b : fval) : bool :=
  match a, b with
  | NInf, _ => true
  | _, PInf => true
  | Fin p, Fin q => Qle_bool p q
  | _, _ => false
  end.

(** [np.fmin] and [np.fmax]: the smaller (larger) of two values, a NaN
    giving way to the other argument. *)
Definition fmin (a b : fval) : fval :=
  match a, b with
  | NaN, _ => b
  | _, NaN => a
  | _, _ => if fleb a b then a else b
  end.

Definition fmax (a b : fval) : fval :=
  match a, b with
  | NaN, _ => b
  | _, NaN => a
  | _, _ => if fleb a b then b else a
  end.

(** [np.nanmin(a)] and [np.nanmax(a)] reduce the whole array with [fmin]
    and [fmax]; an empty array has nothing to reduce. *)
Definition reduce (f : fval → fval → fval) (a : list (list fval))
  : result fval :=
  match concat a with
  | [] => Raise (LibraryError "ValueError")
  | v :: vs => Ok (foldl f v vs)
  end.

Definition nanmin (a : list (list fval)) : result fval := reduce fmin a.
Definition nanmax (a : list (list fval)) : result fval := reduce fmax a.

(** [x = ndvi[~np.isnan(ndvi)]]: the values selected by the boolean mask,
    in row-major order. *)
Definition histogram_input (a : list (list fval)) : list fval :=
  filter (λ v, isnan v = false) (concat a).

(** *** The bandmath tool of the orders notebooks *)

Inductive band_expr :=
  | Band (n : nat)
  | BAdd (a b : band_expr)
  | BSub (a b : band_expr)
  | BMul (a b : band_expr)
  | BDiv (a b : band_expr).

Inductive token :=
  | TBand (n : nat)
  | TPlus | TMinus | TStar | TSlash | TOpen | TClose.

Definition digit_of (c : ascii) : option nat :=
  let n := nat_of_ascii c in
  if decide (48 ≤ n ≤ 57)%nat then Some (n - 48)%nat else None.

(** Reads the digits at the head of [s] onto [acc]. *)
Fixpoint read_number (acc : nat) (s : string) : nat * string :=
  match s with
  | String c s' =>
      match digit_of c with
      | Some d => read_number (10 * acc + d)%nat s'
      | None => (acc, s)
      end
  | EmptyString => (acc, s)
  end.

Fixpoint tokenize (fuel : nat) (s : string) : option (list token) :=
  match fuel with
  | O => None
  | S fuel =>
      match s with
      | EmptyString => Some []
      | String c s' =>
          if Ascii.eqb c " " then tokenize fuel s'
          else if Ascii.eqb c "+" then cons TPlus <$> tokenize fuel s'
          else if Ascii.eqb c "-" then cons TMinus <$> tokenize fuel s'
          else if Ascii.eqb c "*" then cons TStar <$> tokenize fuel s'
          else if Ascii.eqb c "/" then cons TSlash <$> tokenize fuel s'
          else if Ascii.eqb c "(" then cons TOpen <$> tokenize fuel s'
          else if Ascii.eqb c ")" then cons TClose <$> tokenize fuel s'
          else if Ascii.eqb c "b" then
            match s' with
            | String d _ =>
                match digit_of d with
                | Some _ =>
                    let '(n, rest) := read_number 0 s' in
                    cons (TBand n) <$> tokenize fuel rest
                | None => None
                end
            | EmptyString => None
            end
          else None
      end
  end.

(** What the parser is after: an expression, a term, a factor, or the
    rest of an expression or term whose left operand is known. *)
Inductive goal :=
  | GExpr
  | GTerm
  | GFactor
  | GExprRest (left : band_expr)
  | GTermRest (left : band_expr).

Fixpoint parse (fuel : nat) (g : goal) (ts : list token)
  : option (band_expr * list token) :=
  match fuel with
  | O => None
  | S fuel =>
      match g with
      | GExpr =>
          '(t, ts) ← parse fuel GTerm ts; parse fuel (GExprRest t) ts
      | GTerm =>
          '(f, ts) ← parse fuel GFactor ts; parse fuel (GTermRest f) ts
      | GFactor =>
          match ts with
          | TBand n :: ts => Some (Band n, ts)
          | TOpen :: ts =>
              '(e, ts) ← parse fuel GExpr ts;
              match ts with
              | TClose :: ts => Some (e, ts)
              | _ => None
              end
          | _ => None
          end
      | GExprRest l =>
          match ts with
          | TPlus :: ts =>
              '(t, ts) ← parse fuel GTerm ts;
              parse fuel (GExprRest (BAdd l t)) ts
          | TMinus :: ts =>
              '(t, ts) ← parse fuel GTerm ts;
              parse fuel (GExprRest (BSub l t)) ts
          | _ => Some (l, ts)
          end
      | GTermRest l =>
          match ts with
          | TStar :: ts =>
              '(f, ts) ← parse fuel GFactor ts;
              parse fuel (GTermRest (BMul l f)) ts
          | TSlash :: ts =>
              '(f, ts) ← parse fuel GFactor ts;
              parse fuel (GTermRest (BDiv l f)) ts
          | _ => Some (l, ts)
          end
      end
  end.

(** A band expression as the orders service reads it: usual precedence,
    operators of the same level grouped to the left. *)
Definition parse_bandmath (s : string) : option band_expr :=
  ts ← tokenize (S (String.length s)) s;
  '(e, rest) ← parse (4 * S (length ts)) GExpr ts;
  match rest with [] => Some e | _ => None end.

(** Value of an expression at one pixel, [bands n] being the value of
    band [n] there; the pixel type "32R" makes the result a real. *)
Fixpoint eval_band_expr (bands : nat → Q) (e : band_expr) : Q :=
  match e with
  | Band n => bands n
  | BAdd a b => eval_band_expr bands a + eval_band_expr bands b
  | BSub a b => eval_band_expr bands a - eval_band_expr bands b
  | BMul a b => eval_band_expr bands a * eval_band_expr bands b
  | BDiv a b => eval_band_expr bands a / eval_band_expr bands b
  end.

(** The bands of a PlanetScope 4-band image at one pixel, in the order
    BGRN: band 3 is red, band 4 is near-infrared. *)
Definition pixel_bands (blue green red nir : Z) (n : nat) : Q :=
  match n with
  | 1%nat => inject_Z blue
  | 2%nat => inject_Z green
  | 3%nat => inject_Z red
  | 4%nat => inject_Z nir
  | _ => 0
  end.

(** [bandmath_tool['bandmath']['b1']] of use case 1, and the same entry
    of the tools and toolchains notebook. *)
Definition bandmath_tool_b1 : string := "(b4 - b3) / (b4+b3)".
Definition bandmath_b1 : string := "(b4 - b3) / (b4 + b3)".

End Ndvi.

(** ** Asset activation polling (Data API tutorial) *)

Module Polling.

(** An asset description in the response of the assets endpoint; only
    its ["status"] is read. *)
Record asset := Asset { status : string }.

(** [res.json()]: asset type to asset description. *)
Abbreviation assets_response := (gmap string asset).

(** The names the cells bind, the number of GET requests sent to
    [assets_url] so far, and what was printed. *)
Record poll_state := PollState {
  assets : assets_response;
  analytic_asset : asset;
  asset_activated : bool;
  requests : nat;
  printed : list string;
}.

Section with_server.

(** [server k] is the answer of the assets endpoint to the [k]-th GET
    request sent to it (counting from 0). *)
Variable server : nat → assets_response.

(** The cells before the loop: fetch the assets once and bind
    [analytic_asset = assets["analytic"]]; the loop then starts with
    [asset_activated = False]. *)
Definition before_loop : result poll_state :=
  let assets := server 0 in
  match assets !! "analytic" with
  | None => Raise (KeyError "analytic")
  | Some analytic_asset =>
      Ok {| assets := assets;
            analytic_asset := analytic_asset;
            asset_activated := false;
            requests := 1;
            printed := [] |}
  end.

(** One turn of the [while] body.  [assets] is bound to the fresh
    response; [asset_status] is read from [analytic_asset]. *)
Definition loop_body (st : poll_state) : poll_state :=
  let assets := server (requests st) in
  let asset_status := status (analytic_asset st) in
  let printed := printed st ++ [asset_status] in
  if String.eqb asset_status "active"
  then {| assets := assets;
          analytic_asset := analytic_asset st;
          asset_activated := true;
          requests := S (requests st);
          printed := printed ++ ["Asset is active and ready to download"] |}
  else {| assets := assets;
          analytic_asset := analytic_asset st;
          asset_activated := asset_activated st;
          requests := S (requests st);
          printed := printed |}.

(** [while asset_activated == False: ...], cut after [fuel] turns:
    [Some st] is the state in which the loop is left, [None] says that it
    is still running after [fuel] turns. *)
Fixpoint poll_loop (fuel : nat) (st : poll_state) : option poll_state :=
  if asset_activated st then Some st
  else match fuel with
       | O => None
       | S fuel => poll_loop fuel (loop_body st)
       end.

End with_server.

(** The status of the analytic asset in the response fetched last. *)
Definition fetched_status (st : poll_state) : option string :=
  status <$> assets st !! "analytic".

(** Two servers: one on which the activation completes before the first
    request of the loop, one that reports the asset active once and
    inactive ever after. *)
Definition server_activates (k : nat) : assets_response :=
  match k with
  | O => {[ "analytic" := Asset "activating" ]}
  | S _ => {[ "analytic" := Asset "active" ]}
  end.

Definition server_deactivates (k : nat) : assets_response :=
  match k with
  | O => {[ "analytic" := Asset "active" ]}
  | S _ => {[ "analytic" := Asset "inactive" ]}
  end.

End Polling.

(** ** The cells with an exception handler (crop classification) *)

Module Handlers.

(** Values bound to notebook names: numbers, a latitude/longitude pair,
    and objects of the mapping library, known by a handle. *)
Inductive value :=
  | VInt (z : Z)
  | VLatLon (lat lon : Q)
  | VObject (handle : nat).

Abbreviation namespace := (gmap string value).

(** A statement runs in the notebook namespace; it leaves a namespace
    and, when it raised, the exception. *)
Definition stmt := namespace → namespace * option exception.

Definition seq (s1 s2 : stmt) : stmt := λ ns,
  match s1 ns with
  | (ns1, None) => s2 ns1
  | (ns1, Some e) => (ns1, Some e)
  end.

(** [try: body except NameError: pass] *)
Definition try_except_NameError (body : stmt) : stmt := λ ns,
  match body ns with
  | (ns1, Some (NameError _)) => (ns1, None)
  | outcome => outcome
  end.

(** Reading a name. *)
Definition name (x : string) (ns : namespace) : result value :=
  match ns !! x with
  | Some v => Ok v
  | None => Raise (NameError x)
  end.

(** [del x] *)
Definition del (x : string) : stmt := λ ns,
  match ns !! x with
  | Some _ => (delete x ns, None)
  | None => (ns, Some (NameError x))
  end.

(** [x = e] *)
Definition assign (x : string) (e : namespace → result value) : stmt := λ ns,
  match e ns with
  | Ok v => (<[x := v]> ns, None)
  | Raise exn => (ns, Some exn)
  end.

Section with_library.

(** Attribute access on an object of the mapping library, and the rest
    of the second cell (tile layer, map, controls), all library calls. *)
Variable getattr : nat → string → result value.
Variable build_map : stmt.

Definition attribute (x attr : string) (ns : namespace) : result value :=
  v ← name x ns;
  match v with
  | VObject h => getattr h attr
  | _ => Raise (LibraryError "AttributeError")
  end.

(** [[38.3586252, -121.3853994]], latitude and longitude. *)
Definition initial_center : value :=
  VLatLon (383586252 # 10000000) (-1213853994 # 10000000).

(** The cell that initialises the map parameters. *)
Definition initialize_map_cell : stmt :=
  seq (try_except_NameError (del "aoi_map"))
  (seq (assign "zoom" (λ _, Ok (VInt 11)))
       (assign "center" (λ _, Ok initial_center))).

(** The cell that creates the map, reusing the parameters of an existing
    one. *)
Definition create_map_cell : stmt :=
  seq (try_except_NameError
         (seq (assign "center" (attribute "aoi_map" "center"))
              (assign "zoom" (attribute "aoi_map" "zoom"))))
      build_map.

End with_library.

(** The class test of [except NameError]. *)
Definition is_NameError (e : exception) : bool :=
  match e with NameError _ => true | _ => false end.

(** A library whose map objects refuse to give their center. *)
Definition failing_getattr (h : nat) (attr : string) : result value :=
  Raise (LibraryError "TraitError").

Definition no_build : stmt := λ ns, (ns, None).

End Handlers.

(** ** Submitting, awaiting and downloading orders (use case 1) *)

Module Orders.

(** [l[i]] on a Python list, for an index that is not negative. *)
Definition index {A} (l : list A) (i : nat) : result A :=
  match l !! i with
  | Some x => Ok x
  | None => Raise IndexError
  end.

(** The order description returned by the service; only ["id"] is
    read. *)
Record order := Order { order_id : string }.

Section with_service.

Context {request : Type}.

(** [OrdersClient.create_order]: the order created for a request, or the
    exception of the SDK. *)
Variable create_order : request → result order.

(** Calls made on the orders client. *)
Inductive call :=
  | CreateOrder (r : request)
  | Wait (id : string)
  | DownloadOrder (id : string) (directory : string).

(** What a cell sends: a call awaited on its own, or the calls handed
    together to one [asyncio.gather], which runs them concurrently. *)
Inductive step :=
  | Await (c : call)
  | Gather (cs : list call).

Definition order_limit : nat := 2.

(** The [for order_request in ...] loop: [list_orders] and the calls
    made so far are kept when [create_order] raises. *)
Fixpoint place_orders (requests : list request)
    (list_orders : list order) (trace : list step)
  : list order * list step * option exception :=
  match requests with
  | [] => (list_orders, trace, None)
  | order_request :: rest =>
      let trace := trace ++ [Await (CreateOrder order_request)] in
      match create_order order_request with
      | Ok order => place_orders rest (list_orders ++ [order]) trace
      | Raise e => (list_orders, trace, Some e)
      end
  end.

(** The submission cell: [list_of_order_requests[:order_limit]]. *)
Definition submit_orders (list_of_order_requests : list request)
  : list order * list step * option exception :=
  place_orders (take order_limit list_of_order_requests) [] [].

(** [order_id_list]: the ids of the placed orders, in order. *)
Definition collect_order_ids (list_orders : list order) : list string :=
  order_id <$> list_orders.

(** The notebook's [data_dir], the value of
    [os.path.join('data', 'use_case_1')]. *)
Variable data_dir : string.

(** The wait cell.  The arguments of [gather] are evaluated first, so an
    index out of range raises before anything is awaited. *)
Definition wait_cell (order_id_list : list string) : result step :=
  id0 ← index order_id_list 0;
  id1 ← index order_id_list 1;
  Ok (Gather [Wait id0; Wait id1]).

(** The download cell. *)
Definition download_cell (order_id_list : list string) : result step :=
  id0 ← index order_id_list 0;
  id1 ← index order_id_list 1;
  Ok (Gather [DownloadOrder id0 data_dir; DownloadOrder id1 data_dir]).

(** The download step: the wait cell, then the download cell; the steps
    they send. *)
Definition download_step (order_id_list : list string)
  : result (list step) :=
  w ← wait_cell order_id_list;
  d ← download_cell order_id_list;
  Ok [w; d].

End with_service.

Arguments call : clear implicits.
Arguments step : clear implicits.

(** A service that numbers the orders after their requests. *)
Definition sample_create_order (r : string) : result order :=
  Ok (Order ("order-" +:+ r)).

End Orders.

(** ** Locations of the downloaded files (use case 1) *)

Module Locations.

(** [manifest.json] of a downloaded order: its ["files"], each with a
    ["path"]. *)
Record file_entry := FileEntry { path : string }.
Record manifest := Manifest { files : list file_entry }.

Section with_files.

(** [os.path.join] on the list of its arguments, and the manifests on
    disk by file name. *)
Variable path_join : list string → string.
Variable disk : gmap string manifest.

(** The notebook's global [data_dir = os.path.join('data', 'use_case_1')]. *)
Definition data_dir : string := path_join ["data"; "use_case_1"].

(** The body of [get_download_locations]: [locations] is the module-level
    list, appended to in place.  When a manifest cannot be opened the
    exception leaves the list as it is by then. *)
Fixpoint locations_loop (download_dir : string) (order_id_list : list string)
    (locations : list (list string))
  : result unit * list (list string) :=
  match order_id_list with
  | [] => (Ok (), locations)
  | order_id :: rest =>
      let manifest_file :=
        path_join [download_dir; order_id; "manifest.json"] in
      match disk !! manifest_file with
      | None => (Raise (LibraryError "FileNotFoundError"), locations)
      | Some manifest =>
          let location :=
            (λ f, path_join [data_dir; order_id; path f]) <$> files manifest in
          locations_loop download_dir rest (locations ++ [location])
      end
  end.

(** [return locations] hands back the module-level list itself: the
    value returned is the content of the list at that moment. *)
Definition get_download_locations (download_dir : string)
    (order_id_list : list string) (locations : list (list string))
  : result (list (list string)) * list (list string) :=
  match locations_loop download_dir order_id_list locations with
  | (Ok _, locations) => (Ok locations, locations)
  | (Raise e, locations) => (Raise e, locations)
  end.

End with_files.

(** [posixpath.join] on arguments without a leading or trailing slash. *)
Definition sample_join (parts : list string) : string :=
  match parts with
  | [] => ""
  | p :: ps => foldl (λ acc q, acc +:+ "/" +:+ q) p ps
  end.

Definition sample_disk : gmap string manifest :=
  {[ "data/use_case_1/o1/manifest.json" :=
       Manifest [FileEntry "composite.tif"; FileEntry "composite_udm2.tif"];
     "data/use_case_1/o2/manifest.json" :=
       Manifest [FileEntry "composite.tif"] ]}.

End Locations.

(** ** Building one order request per acquired date (use case 1) *)

Module OrderRequests.
Import Grouping.

(** [d[k]] on a dictionary. *)
Definition getitem {V} (d : gmap string V) (k : string) : result V :=
  match d !! k with
  | Some v => Ok v
  | None => Raise (KeyError k)
  end.

Section with_sdk.

(** [build_order_request(ids)] wraps calls of the SDK's [order_request]
    module around the ids. *)
Context {request : Type}.
Variable build_order_request : list string → request.



End with_sdk.

End OrderRequests.

(** ** Styling the crop features and drawing areas of interest *)

Module Styling.
Import GroundTruth OrderRequests.

(** A value in the [properties] of a GeoJSON feature: an attribute of the
    shapefile or, under ['style'], the style dictionary
    [{'weight': w, 'fillColor': c, 'fillOpacity': o}]. *)
Inductive pvalue :=
  | PAttr (a : attr)
  | PStyle (weight : Z) (fillColor : string) (fillOpacity : Z).

Global Instance pvalue_eq_dec : EqDecision pvalue.
Proof. solve_decision. Defined.

Definition colors : list string :=
  ["#ffffd9"; "#edf8b1"; "#c7e9b4"; "#7fcdbb";
   "#41b6c4"; "#1d91c0"; "#225ea8"; "#0c2c84"].

(** [dict((a,c) for a,c in zip(agg_classes, colors))]; the labels are
    pairwise distinct. *)
Definition class_colors : gmap string string :=
  list_to_map (zip agg_classes colors).

(** [class_colors[cls]]: a key that is not a label raises [KeyError], a
    dictionary cannot be a key at all. *)
Definition get_color (cls : pvalue) : result string :=
  match cls with
  | PAttr (AStr c) => getitem class_colors c
  | PAttr (ANum _) => Raise (KeyError "<number>")
  | PAttr ANull => Raise (KeyError "None")
  | PStyle _ _ _ => Raise (LibraryError "TypeError")
  end.

Section with_geometry.
Context {geometry : Type}.

(** A feature of the feature collection. *)
Record geo_feature := GeoFeature {
  gf_id : string;
  gf_geometry : geometry;
  gf_properties : gmap string pvalue;
}.

(** The features as [load_ground_truth] returns them. *)
Definition of_feature (f : feature geometry) : geo_feature :=
  {| gf_id := feat_id f;
     gf_geometry := feat_geometry f;
     gf_properties := PAttr <$> properties f |}.

(** [f['properties']['style'] = {...}] *)
Definition set_style (f : geo_feature) (feature_color : string)
  : geo_feature :=
  {| gf_id := gf_id f;
     gf_geometry := gf_geometry f;
     gf_properties :=
       <["style" := PStyle 0 feature_color 1]> (gf_properties f) |}.

(** The [for f in feature_collection['features']] loop.  The features
    are updated in place: [styled] are the features already passed,
    and when a feature raises, the list is left with these and the
    features not reached. *)
Fixpoint style_loop (features : list geo_feature) (styled : list geo_feature)
  : list geo_feature * option exception :=
  match features with
  | [] => (styled, None)
  | f :: rest =>
      match cls ← getitem (gf_properties f) "CLASS1"; get_color cls with
      | Ok feature_color =>
          style_loop rest (styled ++ [set_style f feature_color])
      | Raise e => (styled ++ f :: rest, Some e)
      end
  end.

Definition style_features (features : list geo_feature)
  : list geo_feature * option exception :=
  style_loop features [].

(** *** The draw control *)

(** [[f['properties']['CLASS1'] for f in features]] *)
Fixpoint class1_values (features : list geo_feature)
  : result (list pvalue) :=
  match features with
  | [] => Ok []
  | f :: rest =>
      c ← getitem (gf_properties f) "CLASS1";
      cs ← class1_values rest;
      Ok (c :: cs)
  end.

Definition hashable (v : pvalue) : bool :=
  match v with PAttr _ => true | PStyle _ _ _ => false end.

(** [set(values)], kept as the list of its elements. *)
Definition py_set (values : list pvalue) : result (list pvalue) :=
  if forallb hashable values then Ok (remove_dups values)
  else Raise (LibraryError "TypeError").

(** [len(set([f['properties']['CLASS1'] for f in features]))] *)
Definition count_unique_classes (features : list geo_feature)
  : result nat :=
  values ← class1_values features;
  classes ← py_set values;
  Ok (length classes).

(** [l.remove(x)]: the first element equal to [x] is removed; there is
    nothing to return when no element is. *)
Fixpoint remove_first {A} `{EqDecision A} (x : A) (l : list A)
  : option (list A) :=
  match l with
  | [] => None
  | y :: l => if decide (y = x) then Some l
              else cons y <$> remove_first x l
  end.

(** The shape drawn on the map, [geo_json['geometry']]. *)
Record geo_json := GeoJson { gj_geometry : geometry }.

(** [label.value], the text
    ['{} unique classes out of {} total'] with its two numbers. *)
Inductive label :=
  | LabelEmpty
  | LabelClasses (unique total : nat).

Record draw_state := DrawState {
  aois : list geo_json;
  label_value : label;
}.

Context `{EqDecision geometry}.

Global Instance geo_json_eq_dec : EqDecision geo_json.
Proof. solve_decision. Defined.

(** [shape(f['geometry']).within(box_shape)], shapely's test. *)
Variable within : geometry → geometry → bool.

(** [handle_draw(self, action, geo_json)] with the globals [features]
    and [total_unique_classes]. *)
Definition handle_draw (features : list geo_feature)
    (total_unique_classes : nat) (action : string) (g : geo_json)
    (st : draw_state) : draw_state * option exception :=
  if String.eqb action "created" then
    let box_shape := gj_geometry g in
    let contained_features :=
      filter (λ f, within (gf_geometry f) box_shape = true) features in
    match count_unique_classes contained_features with
    | Ok n =>
        ({| aois := aois st ++ [g];
            label_value := LabelClasses n total_unique_classes |}, None)
    | Raise e => (st, Some e)
    end
  else if String.eqb action "deleted" then
    match remove_first g (aois st) with
    | Some aois' => ({| aois := aois'; label_value := label_value st |}, None)
    | None => (st, Some (LibraryError "ValueError"))
    end
  else (st, None).

End with_geometry.

Arguments geo_feature : clear implicits.
Arguments geo_json : clear implicits.
Arguments draw_state : clear implicits.

(** The CLASS1 property of a feature is one of the agricultural labels. *)
Definition geo_agricultural {geometry} (g : geo_feature geometry) : Prop :=
  ∃ c, gf_properties g !! "CLASS1" = Some (PAttr (AStr c))
       ∧ c ∈ agg_classes.

End Styling.

(** ** Sample inputs *)

Module MoreSamples.
Import GroundTruth.

(** A survey whose second parcel has no CLASS1 attribute. *)
Definition survey_without_class : dataset (Z * Z) :=
  {| crs := {[ "init" := "epsg:26910" ]};
     records :=
       [ Feature "0" (1, 1)%Z {[ "CLASS1" := AStr "G" ]};
         Feature "1" (2, 2)%Z {[ "ACRES" := ANum 12 ]};
         Feature "2" (3, 3)%Z {[ "CLASS1" := AStr "V" ]} ] |}.

(** A shapely in which every parcel lies within every drawn box. *)
Definition sample_within (parcel box : Z * Z) : bool := true.

End MoreSamples.

(** ** The colour normalisation of the NDVI figure *)

Module Normalize.
Import Ndvi.

(** [np.interp(x, xp, fp)] at a finite [x], the knots [xp] increasing:
    [fp] of the first knot to the left of the knots, [fp] of the last
    knot to their right and at the last knot, [fp] of a knot at that
    knot, and between two knots the value on the line through them,
    computed as [slope * (x - xp[j]) + fp[j]]. *)
Fixpoint interp_between (x : Q) (knots : list (Q * Q)) : Q :=
  match knots with
  | [] => 0%Q
  | (x0, y0) :: rest =>
      match rest with
      | [] => y0
      | (x1, y1) :: _ =>
          if Qlt_le_dec x x1 then
            if Qeq_dec x0 x then y0
            else (y1 - y0) / (x1 - x0) * (x - x0) + y0
          else interp_between x rest
      end
  end.

Definition interp (x : Q) (knots : list (Q * Q)) : Q :=
  match knots with
  | [] => 0%Q
  | (x0, y0) :: _ =>
      let '(xn, yn) := List.last knots (x0, y0) in
      if Qlt_le_dec xn x then yn
      else if Qlt_le_dec x x0 then y0
      else interp_between x knots
  end.

(** [np.interp] at any float: an infinity lies outside of the knots, a
    NaN stays a NaN. *)
Definition interp_float (v : fval) (knots : list (Q * Q)) : fval :=
  match knots with
  | [] => NaN
  | (x0, y0) :: _ =>
      match v with
      | Fin x => Fin (interp x knots)
      | PInf => Fin (List.last knots (x0, y0)).2
      | NInf => Fin y0
      | NaN => NaN
      end
  end.

(** [MidpointNormalize(vmin, vmax, midpoint).__call__(value)]: the
    interpolation over [[vmin, midpoint, vmax]] and [[0, 0.5, 1]], masked
    where the value is NaN.  [None] is a masked entry. *)
Definition MidpointNormalize (vmin vmax midpoint : Q) (value : fval)
  : option fval :=
  let knots := [(vmin, 0%Q); (midpoint, (1 # 2)%Q); (vmax, 1%Q)] in
  if isnan value then None else Some (interp_float value knots).

End Normalize.

(** ** Choosing the API key *)

Module ApiKey.

(** [os.environ.get(key, default)] *)
Definition environ_get (environ : gmap string string) (key dflt : string)
  : string :=
  match environ !! key with
  | Some v => v
  | None => dflt
  end.

(** The truth value of a string: it is not empty. *)
Definition truthy (s : string) : bool := negb (String.eqb s "").

(** [if os.environ.get('PL_API_KEY', ''): API_KEY = os.environ.get(...)
    else: API_KEY = placeholder], the form of the crop classification,
    Data API and tools notebooks. *)
Definition api_key_checked (placeholder : string)
    (environ : gmap string string) : string :=
  if truthy (environ_get environ "PL_API_KEY" "")
  then environ_get environ "PL_API_KEY" ""
  else placeholder.

(** [API_KEY = os.environ.get('PL_API_KEY', placeholder)], the form of
    the use case 1 and basemaps notebooks. *)
Definition api_key_default (placeholder : string)
    (environ : gmap string string) : string :=
  environ_get environ "PL_API_KEY" placeholder.

End ApiKey.

(** ** What the polling loop reads *)

Module PollingView.
Import Polling.

(** The names the loop reads, the request count and the output: all of
    the state but the response fetched last. *)
Definition visible (st : poll_state)
  : asset * bool * nat * list string :=
  (analytic_asset st, asset_activated st, requests st, printed st).

End PollingView.

(** * Verified properties *)

Module GroupingFacts.
Import Grouping.

Example split_head_timestamp :
  split_head "T"%char "2019-04-03T16:21:12.432Z" = "2019-04-03".
Proof. reflexivity. Qed.

Example split_head_no_separator :
  split_head "T"%char "2019-04-03" = "2019-04-03".
Proof. reflexivity. Qed.

Lemma lookup_get_ids_by_date (items : list item) (d : string) :
  get_ids_by_date items !! d =
    if decide (d ∈ get_acquired_date <$> items)
    then Some (get_date_item_ids d items) else None.
Proof.
  unfold get_ids_by_date. case_decide as Hd.
  - apply (lookup_set_to_map (M := gmap string)); [naive_solver|].
    exists d. split; [|done]. by apply elem_of_list_to_set.
  - apply eq_None_not_Some. intros [ids Hids].
    apply (lookup_set_to_map (M := gmap string)) in Hids; [|naive_solver].
    destruct Hids as (d' & Hin & Heq). simplify_eq.
    by apply elem_of_list_to_set in Hin.
Qed.

Lemma get_date_item_ids_app (d : string) (l1 l2 : list item) :
  get_date_item_ids d (l1 ++ l2) =
    get_date_item_ids d l1 ++ get_date_item_ids d l2.
Proof. unfold get_date_item_ids. by rewrite filter_app, fmap_app. Qed.

Lemma get_date_item_ids_own (i : item) :
  get_date_item_ids (get_acquired_date i) [i] = [item_id i].
Proof.
  unfold get_date_item_ids. by rewrite filter_cons_True, filter_nil.
Qed.

Lemma get_date_item_ids_other (d : string) (i : item) :
  d ≠ get_acquired_date i → get_date_item_ids d [i] = [].
Proof.
  intros Hd. unfold get_date_item_ids.
  by rewrite filter_cons_False, filter_nil by congruence.
Qed.

Lemma get_date_item_ids_absent (d : string) (items : list item) :
  d ∉ get_acquired_date <$> items → get_date_item_ids d items = [].
Proof.
  intros Hd. induction items as [|i items IH]; [done|].
  rewrite fmap_cons, not_elem_of_cons in Hd. destruct Hd as [Hne Hd].
  change (i :: items) with ([i] ++ items).
  rewrite get_date_item_ids_app, get_date_item_ids_other by done.
  by apply IH.
Qed.

Lemma lookup_single_pass (items : list item) (d : string) :
  ids_by_date_single_pass items !! d =
    if decide (d ∈ get_acquired_date <$> items)
    then Some (get_date_item_ids d items) else None.
Proof.
  unfold ids_by_date_single_pass.
  induction items as [|i items IH] using rev_ind.
  { rewrite decide_False; [apply lookup_empty|].
    rewrite fmap_nil. apply not_elem_of_nil. }
  rewrite foldl_app. simpl. unfold single_pass_step at 1.
  rewrite fmap_app, get_date_item_ids_app. simpl.
  destruct (decide (get_acquired_date i = d)) as [<-|Hne].
  - rewrite lookup_insert_eq, IH, get_date_item_ids_own.
    destruct (decide (_ ∈ get_acquired_date <$> items)) as [Hd|Hd]; simpl;
      rewrite decide_True
        by (rewrite elem_of_app, list_elem_of_singleton; by right);
      [done|].
    by rewrite get_date_item_ids_absent.
  - rewrite lookup_insert_ne, IH by done.
    rewrite get_date_item_ids_other, app_nil_r by done.
    apply decide_ext.
    rewrite elem_of_app, list_elem_of_singleton.
    split; [tauto|]. intros [?| ->]; [done|congruence].
Qed.

Lemma elem_of_dates_middle (d : string) (l1 l2 : list item) (i : item) :
  d ∈ get_acquired_date <$> l1 ++ i :: l2 ↔
  d = get_acquired_date i ∨ d ∈ get_acquired_date <$> l1 ++ l2.
Proof.
  rewrite !fmap_app, fmap_cons, !elem_of_app, elem_of_cons. tauto.
Qed.

(** C4: [get_ids_by_date] partitions the scene ids by acquired date.  The
    keys of the mapping are exactly the acquired dates of the items; each
    key maps to the ids of the items of that date, in input order; and an
    item at any position of the list adds its id to the group of its own
    date, at its place, while every other group is what it would be
    without that item. *)
Theorem get_ids_by_date_partitions (items : list item) :
  dom (get_ids_by_date items) = list_to_set (get_acquired_date <$> items)
  ∧ (∀ d ids, get_ids_by_date items !! d = Some ids →
       ids = item_id <$> filter (λ i, get_acquired_date i = d) items)
  ∧ (∀ l1 i l2, items = l1 ++ i :: l2 →
       let same_date j := get_acquired_date j = get_acquired_date i in
       get_ids_by_date items !! get_acquired_date i =
         Some ((item_id <$> filter same_date l1)
               ++ item_id i :: (item_id <$> filter same_date l2))
       ∧ ∀ d, d ≠ get_acquired_date i →
           get_ids_by_date items !! d = get_ids_by_date (l1 ++ l2) !! d).
Proof.
  split_and!.
  - apply set_eq. intros d.
    rewrite elem_of_dom, lookup_get_ids_by_date, elem_of_list_to_set.
    case_decide; [by split; eauto|].
    split; [by intros [? ?]|done].
  - intros d ids. rewrite lookup_get_ids_by_date.
    case_decide; [|done]. by intros [= <-].
  - intros l1 i l2 -> same_date. split.
    + rewrite lookup_get_ids_by_date, decide_True
        by (apply elem_of_dates_middle; by left).
      change (i :: l2) with ([i] ++ l2).
      by rewrite !get_date_item_ids_app, get_date_item_ids_own.
    + intros d Hd. rewrite !lookup_get_ids_by_date.
      assert (get_date_item_ids d (l1 ++ i :: l2) =
              get_date_item_ids d (l1 ++ l2)) as ->.
      { change (i :: l2) with ([i] ++ l2).
        by rewrite !get_date_item_ids_app, get_date_item_ids_other. }
      apply decide_ext. rewrite elem_of_dates_middle. tauto.
Qed.

Lemma get_ids_by_date_partitions_witness :
  get_ids_by_date sample_items !! "2019-04-01" =
    Some ["20190401_a"; "20190401_c"]
  ∧ get_ids_by_date sample_items !! "2019-04-03" = Some ["20190403_b"].
Proof.
  destruct (get_ids_by_date_partitions sample_items) as (_ & _ & Hpos).
  split.
  - exact (proj1 (Hpos [] (Item "20190401_a" "2019-04-01T16:21:12.4Z")
             [ Item "20190403_b" "2019-04-03T16:30:00.0Z";
               Item "20190401_c" "2019-04-01T16:21:14.9Z" ] eq_refl)).
  - exact (proj1 (Hpos [Item "20190401_a" "2019-04-01T16:21:12.4Z"]
             (Item "20190403_b" "2019-04-03T16:30:00.0Z")
             [Item "20190401_c" "2019-04-01T16:21:14.9Z"] eq_refl)).
Defined.

(** C5: the mapping returned by [get_ids_by_date], which rescans the whole
    item list once per distinct acquired date, is the mapping built by the
    one-traversal fold [ids_by_date_single_pass]. *)
Theorem get_ids_by_date_single_pass (items : list item) :
  get_ids_by_date items = ids_by_date_single_pass items.
Proof.
  apply map_eq. intros d.
  by rewrite lookup_get_ids_by_date, lookup_single_pass.
Qed.

End GroupingFacts.

Module GroundTruthFacts.
Import GroundTruth.

Section with_geometry.
Context {geometry : Type}.
Variable transform : string → string → geometry → geometry.

Lemma is_agricultural_Ok (f : feature geometry) :
  is_Some (properties f !! "CLASS1") →
  is_agricultural f = Ok (bool_decide (agricultural_class1 f)).
Proof.
  intros [v Hv]. unfold is_agricultural. rewrite Hv.
  destruct (decide (agricultural_class1 f)) as [Hagr|Hagr].
  - rewrite bool_decide_true by done.
    unfold agricultural_class1 in Hagr. rewrite Hv in Hagr.
    apply list_elem_of_fmap in Hagr as (c & [= ->] & Hc).
    by rewrite bool_decide_true.
  - rewrite bool_decide_false by done.
    destruct v as [c| |]; [|done..].
    rewrite bool_decide_false; [done|].
    intros Hc. apply Hagr. unfold agricultural_class1. rewrite Hv.
    by apply (list_elem_of_fmap_2 (Some ∘ AStr)) in Hc.
Qed.

Lemma load_loop_filter (to_wkt : geometry → geometry)
    (survey_data features : list (feature geometry)) :
  Forall (λ f, is_Some (properties f !! "CLASS1")) survey_data →
  load_loop to_wkt survey_data features =
    Ok (features ++
        ((λ f, project_feature f to_wkt) <$>
           filter agricultural_class1 survey_data)).
Proof.
  intros Hall. revert features.
  induction Hall as [|f rest Hf _ IH]; intros features; simpl.
  { by rewrite app_nil_r. }
  rewrite (is_agricultural_Ok f Hf). simpl.
  destruct (decide (agricultural_class1 f)) as [Hagr|Hagr].
  - rewrite bool_decide_true, filter_cons_True by done.
    by rewrite IH, fmap_cons, <- app_assoc.
  - rewrite bool_decide_false, filter_cons_False by done. apply IH.
Qed.

(** C6: on a survey dataset whose coordinate reference system has an
    [init] entry and whose features all carry a CLASS1 attribute,
    [load_ground_truth] returns, in input order, exactly the features whose
    CLASS1 is one of 'G', 'R', 'F', 'P', 'T', 'D', 'C', 'V'; each of them
    has its geometry replaced by its reprojection to EPSG:4326 and keeps
    its id and properties. *)
Theorem load_ground_truth_filters (survey_data : dataset geometry)
    (src_proj : string) :
  crs survey_data !! "init" = Some src_proj →
  Forall (λ f, is_Some (properties f !! "CLASS1")) (records survey_data) →
  load_ground_truth transform survey_data =
    Ok ((λ f, {| feat_id := feat_id f;
                 feat_geometry :=
                   transform src_proj "epsg:4326" (feat_geometry f);
                 properties := properties f |})
        <$> filter
              (λ f, properties f !! "CLASS1" ∈
                      (Some ∘ AStr) <$>
                        ["G"; "R"; "F"; "P"; "T"; "D"; "C"; "V"])
              (records survey_data)).
Proof.
  intros Hcrs Hall. unfold load_ground_truth, define_to_wkt_projection.
  rewrite Hcrs. simpl. by rewrite load_loop_filter.
Qed.

End with_geometry.

Lemma load_ground_truth_filters_witness :
  load_ground_truth sample_transform sample_survey =
    Ok [ Feature "0" (101, 101)%Z {[ "CLASS1" := AStr "G" ]};
         Feature "2" (103, 103)%Z {[ "CLASS1" := AStr "V" ]} ].
Proof.
  rewrite (load_ground_truth_filters sample_transform sample_survey
             "epsg:26910").
  - reflexivity.
  - reflexivity.
  - repeat constructor; eexists; reflexivity.
Defined.

End GroundTruthFacts.

Module NdviFacts.
Import Ndvi.

Local Open Scope Z_scope.

(** *** Arrays *)

Lemma pixel_array_map2 {A B C} (f : A → B → C)
    (a : list (list A)) (b : list (list B)) (i j : nat) :
  pixel (array_map2 f a b) i j =
    x ← pixel a i j; y ← pixel b i j; Some (f x y).
Proof.
  unfold pixel, array_map2. rewrite lookup_zip_with.
  destruct (a !! i) as [ra|]; simpl; [|done].
  destruct (b !! i) as [rb|]; simpl.
  - by rewrite lookup_zip_with.
  - by destruct (ra !! j).
Qed.

Lemma pixel_astype_float (a : band) (i j : nat) :
  pixel (astype_float a) i j = inject_Z <$> pixel a i j.
Proof.
  unfold pixel, astype_float. rewrite list_lookup_fmap.
  destruct (a !! i) as [ra|]; simpl; [|done].
  by rewrite list_lookup_fmap.
Qed.

(** The array expression computes [ndvi_pixel] at every position that
    both bands have. *)
Lemma pixel_ndvi (band_nir band_red : band) (i j : nat) :
  pixel (ndvi band_nir band_red) i j =
    nir ← pixel band_nir i j; red ← pixel band_red i j;
    Some (ndvi_pixel nir red).
Proof.
  unfold ndvi. rewrite !pixel_array_map2, !pixel_astype_float.
  destruct (pixel band_nir i j) as [nir|]; simpl; [|done].
  by destruct (pixel band_red i j) as [red|].
Qed.

Lemma shape_array_map2 {A B C} (f : A → B → C)
    (a : list (list A)) (b : list (list B)) :
  shape a = shape b → shape (array_map2 f a b) = shape a.
Proof.
  unfold shape, array_map2. revert b.
  induction a as [|ra a IH]; intros [|rb b]; simpl; try done.
  intros [= Hrow Hrest]. f_equal; [|by apply IH].
  rewrite length_zip_with. lia.
Qed.

Lemma shape_astype_float (a : band) : shape (astype_float a) = shape a.
Proof.
  unfold shape, astype_float. rewrite <- list_fmap_compose.
  apply list_fmap_ext. intros _ row _. simpl. by rewrite length_fmap.
Qed.

(** On bands of equal shape the result has that shape: one value per
    pixel. *)
Lemma shape_ndvi (band_nir band_red : band) :
  shape band_nir = shape band_red →
  shape (ndvi band_nir band_red) = shape band_nir.
Proof.
  intros Hshape. unfold ndvi.
  rewrite shape_array_map2; rewrite !shape_array_map2;
    rewrite ?shape_astype_float; done.
Qed.

(** *** The value at one pixel *)

Lemma uint16_add_no_wrap (nir red : Z) :
  is_uint16 nir → is_uint16 red → nir + red < uint16_modulus →
  uint16_add nir red = nir + red.
Proof.
  unfold is_uint16, uint16_add. intros. apply Z.mod_small. lia.
Qed.

(** Where the sum of the two bands fits in 16 bits and is not zero, the
    notebook's value is the reference NDVI. *)
Lemma ndvi_pixel_without_wrap (nir red : Z) :
  is_uint16 nir → is_uint16 red →
  nir + red < uint16_modulus → nir + red ≠ 0 →
  feq (ndvi_pixel nir red) (Fin (ndvi_reference nir red)).
Proof.
  intros Hn Hr Hfit Hnz. unfold ndvi_pixel, ndvi_reference, float_div.
  rewrite uint16_add_no_wrap by done.
  rewrite decide_False by done. simpl.
  by rewrite inject_Z_plus.
Qed.

(** ... and lies between -1 and 1. *)
Lemma ndvi_pixel_range_without_wrap (nir red : Z) :
  is_uint16 nir → is_uint16 red →
  0 < nir + red < uint16_modulus →
  ∃ q, ndvi_pixel nir red = Fin q ∧ (-1 <= q)%Q ∧ (q <= 1)%Q.
Proof.
  intros Hn Hr [Hpos Hfit]. unfold ndvi_pixel, float_div.
  rewrite uint16_add_no_wrap by done.
  rewrite decide_False by lia.
  eexists. split; [done|].
  assert (0 < inject_Z (nir + red))%Q as Hden.
  { change 0%Q with (inject_Z 0). by rewrite <- Zlt_Qlt. }
  assert (0 <= inject_Z nir)%Q as Hn'.
  { change 0%Q with (inject_Z 0). rewrite <- Zle_Qle. apply Hn. }
  assert (0 <= inject_Z red)%Q as Hr'.
  { change 0%Q with (inject_Z 0). rewrite <- Zle_Qle. apply Hr. }
  split.
  - apply Qle_shift_div_l; [done|]. rewrite inject_Z_plus. lra.
  - apply Qle_shift_div_r; [done|]. rewrite inject_Z_plus. lra.
Qed.

(** The value is NaN exactly when the numerator and the wrapped
    denominator are both zero. *)
Lemma ndvi_pixel_nan (nir red : Z) :
  ndvi_pixel nir red = NaN ↔ nir = red ∧ uint16_add nir red = 0.
Proof.
  unfold ndvi_pixel, float_div.
  destruct (decide (uint16_add nir red = 0)) as [Hz|Hz].
  - destruct (inject_Z nir - inject_Z red ?= 0)%Q eqn:Hcmp.
    + apply Qeq_alt in Hcmp.
      assert (inject_Z nir == inject_Z red)%Q as Heq by lra.
      apply (proj1 (inject_Z_injective nir red)) in Heq.
      split; [intros _; by split|done].
    + split; [done|]. intros [-> _].
      apply Qlt_alt in Hcmp. lra.
    + split; [done|]. intros [-> _].
      apply Qgt_alt in Hcmp. lra.
  - split; [done|]. by intros [_ ?].
Qed.

(** *** Reductions that skip NaN *)

Section reduce.
Variable f : fval → fval → fval.
Hypothesis f_nan_l : ∀ b, f NaN b = b.
Hypothesis f_nan_r : ∀ a, f a NaN = a.

Lemma foldl_skip_nan (v : fval) (vs : list fval) :
  foldl f v (filter (λ w, isnan w = false) vs) = foldl f v vs.
Proof.
  revert v. induction vs as [|w vs IH]; intros v; [done|].
  destruct w; simpl;
    rewrite ?filter_cons_True, ?filter_cons_False by done; simpl;
    rewrite ?f_nan_r; apply IH.
Qed.

Lemma foldl_from_nan (vs : list fval) :
  foldl f NaN vs =
    match filter (λ w, isnan w = false) vs with
    | [] => NaN
    | w :: ws => foldl f w ws
    end.
Proof.
  induction vs as [|w vs IH]; [done|].
  simpl. rewrite f_nan_l.
  destruct w; rewrite ?filter_cons_True, ?filter_cons_False by done;
    rewrite ?foldl_skip_nan; done.
Qed.

(** The reduction of an array is the reduction of its defined values;
    it is NaN when there is none. *)
Lemma reduce_defined (a : list (list fval)) :
  reduce f a =
    match histogram_input a with
    | w :: ws => Ok (foldl f w ws)
    | [] => match concat a with
            | [] => Raise (LibraryError "ValueError")
            | _ => Ok NaN
            end
    end.
Proof.
  unfold reduce, histogram_input.
  destruct (concat a) as [|v vs]; [done|].
  destruct v; rewrite ?filter_cons_True, ?filter_cons_False by done;
    rewrite ?foldl_skip_nan; try done.
  rewrite foldl_from_nan.
  by destruct (filter _ vs).
Qed.

End reduce.

Lemma fmin_nan_l b : fmin NaN b = b.
Proof. done. Qed.
Lemma fmin_nan_r a : fmin a NaN = a.
Proof. by destruct a. Qed.
Lemma fmax_nan_l b : fmax NaN b = b.
Proof. done. Qed.
Lemma fmax_nan_r a : fmax a NaN = a.
Proof. by destruct a. Qed.

(** *** The bandmath expression *)

Lemma bandmath_is_reference (blue green red nir : Z) :
  (eval_band_expr (pixel_bands blue green red nir)
     (BDiv (BSub (Band 4) (Band 3)) (BAdd (Band 4) (Band 3)))
   == ndvi_reference nir red)%Q.
Proof. unfold ndvi_reference. simpl. reflexivity. Qed.

(** C1: the notebook's NDVI is not the reference (NIR-Red)/(NIR+Red) at
    every pixel with a non-zero sum.  For the one-pixel bands NIR = 40000
    and Red = 30000 the uint16 sum wraps to 4464 and the value is
    10000/4464, not 10000/70000.  The bandmath tool of both orders
    notebooks is the reference expression over bands 4 and 3. *)
Theorem ndvi_denominator_wraps :
  let band_nir : band := [[40000]] in
  let band_red : band := [[30000]] in
  shape band_nir = shape band_red
  ∧ band_ok band_nir ∧ band_ok band_red
  ∧ 40000 + 30000 ≠ 0
  ∧ pixel (ndvi band_nir band_red) 0 0 = Some (Fin (10000 # 4464))
  ∧ ¬ feq (Fin (10000 # 4464)) (Fin (ndvi_reference 40000 30000))
  ∧ parse_bandmath bandmath_tool_b1 =
      Some (BDiv (BSub (Band 4) (Band 3)) (BAdd (Band 4) (Band 3)))
  ∧ parse_bandmath bandmath_b1 =
      Some (BDiv (BSub (Band 4) (Band 3)) (BAdd (Band 4) (Band 3)))
  ∧ ∀ blue green red nir : Z,
      (eval_band_expr (pixel_bands blue green red nir)
         (BDiv (BSub (Band 4) (Band 3)) (BAdd (Band 4) (Band 3)))
       == ndvi_reference nir red)%Q.
Proof.
  split_and!; try done; try apply bandmath_is_reference.
  - repeat constructor; unfold uint16_modulus; lia.
  - repeat constructor; unfold uint16_modulus; lia.
Qed.

(** C2: with NIR = 40000 and Red = 30000, both non-negative and of
    positive sum, the value the notebook computes is 10000/4464, which is
    greater than 1. *)
Theorem ndvi_exceeds_one_on_wrap :
  is_uint16 40000 ∧ is_uint16 30000
  ∧ 0 ≤ 40000 ∧ 0 ≤ 30000 ∧ 0 < 40000 + 30000
  ∧ ndvi_pixel 40000 30000 = Fin (10000 # 4464)
  ∧ (1 < 10000 # 4464)%Q.
Proof. unfold is_uint16, uint16_modulus. split_and!; done || lia. Qed.

(** C3: the NDVI expression gives a value at every pixel of equal-shape
    bands, NaN where the two bands sum to zero; [np.nanmin] and
    [np.nanmax] reduce exactly the values that are not NaN, and so does
    the histogram input. *)
Theorem ndvi_division_by_zero_ignored :
  (∀ band_nir band_red : band,
     shape band_nir = shape band_red →
     shape (ndvi band_nir band_red) = shape band_nir)
  ∧ (∀ (band_nir band_red : band) (i j : nat) (nir red : Z),
       pixel band_nir i j = Some nir → pixel band_red i j = Some red →
       is_uint16 nir → is_uint16 red → nir + red = 0 →
       pixel (ndvi band_nir band_red) i j = Some NaN)
  ∧ (∀ a : list (list fval),
       nanmin a =
         match histogram_input a with
         | w :: ws => Ok (foldl fmin w ws)
         | [] => match concat a with
                 | [] => Raise (LibraryError "ValueError")
                 | _ => Ok NaN
                 end
         end
       ∧ nanmax a =
         match histogram_input a with
         | w :: ws => Ok (foldl fmax w ws)
         | [] => match concat a with
                 | [] => Raise (LibraryError "ValueError")
                 | _ => Ok NaN
                 end
         end)
  ∧ (∀ (a : list (list fval)) (v : fval),
       v ∈ histogram_input a ↔ v ∈ concat a ∧ v ≠ NaN).
Proof.
  split_and!.
  - apply shape_ndvi.
  - intros band_nir band_red i j nir red Hnir Hred Hn Hr Hsum.
    rewrite pixel_ndvi, Hnir, Hred. simpl. f_equal.
    apply ndvi_pixel_nan. unfold is_uint16 in *.
    assert (nir = 0 ∧ red = 0) as [-> ->] by lia. done.
  - intros a. split.
    + apply reduce_defined; [apply fmin_nan_l|apply fmin_nan_r].
    + apply reduce_defined; [apply fmax_nan_l|apply fmax_nan_r].
  - intros a v. unfold histogram_input. rewrite list_elem_of_filter.
    destruct v; simpl; intuition congruence.
Qed.

Lemma ndvi_division_by_zero_ignored_witness :
  pixel (ndvi [[0; 3000]] [[0; 1000]]) 0 0 = Some NaN
  ∧ shape (ndvi [[0; 3000]] [[0; 1000]]) = [2%nat].
Proof.
  destruct ndvi_division_by_zero_ignored as (Hshape & Hnan & _).
  split.
  - apply (Hnan [[0; 3000]] [[0; 1000]] 0%nat 0%nat 0 0);
      unfold is_uint16, uint16_modulus; done || lia.
  - apply (Hshape [[0; 3000]] [[0; 1000]]). reflexivity.
Defined.

End NdviFacts.

Module PollingFacts.
Import Polling.

Section with_server.
Variable server : nat → assets_response.

Lemma loop_body_analytic_asset (st : poll_state) :
  analytic_asset (loop_body server st) = analytic_asset st.
Proof. unfold loop_body. by destruct (String.eqb _ _). Qed.

Lemma loop_body_assets (st : poll_state) :
  assets (loop_body server st) = server (requests st).
Proof. unfold loop_body. by destruct (String.eqb _ _). Qed.

(** The exit test only ever sees the status bound before the loop: when
    it is not 'active' the loop runs for ever, whatever the server
    answers. *)
Lemma stale_status_never_exits (fuel : nat) (st : poll_state) :
  asset_activated st = false →
  status (analytic_asset st) ≠ "active" →
  poll_loop server fuel st = None.
Proof.
  revert st. induction fuel as [|fuel IH]; intros st Hact Hstatus; simpl;
    rewrite Hact; [done|].
  apply IH.
  - unfold loop_body. apply String.eqb_neq in Hstatus. by rewrite Hstatus.
  - by rewrite loop_body_analytic_asset.
Qed.

(** ... and when it is 'active' the loop is left after one turn,
    whatever the server answers. *)
Lemma stale_active_exits_at_once (fuel : nat) (st : poll_state) :
  asset_activated st = false →
  status (analytic_asset st) = "active" →
  poll_loop server (S fuel) st = Some (loop_body server st).
Proof.
  intros Hact Hstatus. simpl. rewrite Hact.
  assert (asset_activated (loop_body server st) = true) as Hdone.
  { unfold loop_body. by rewrite Hstatus. }
  destruct fuel; simpl; by rewrite Hdone.
Qed.

End with_server.

(** C7: the loop does not follow the status fetched from the server.  On
    a server that reports the asset active from the first request of the
    loop on, the loop never exits; on a server that reported it active
    before the loop and inactive since, the loop exits after one turn,
    the status fetched last being 'inactive'. *)
Theorem polling_reads_stale_status :
  (∃ st0, before_loop server_activates = Ok st0
     ∧ fetched_status (loop_body server_activates st0) = Some "active"
     ∧ ∀ fuel, poll_loop server_activates fuel st0 = None)
  ∧ (∃ st0 st1, before_loop server_deactivates = Ok st0
       ∧ (∀ fuel, poll_loop server_deactivates (S fuel) st0 = Some st1)
       ∧ requests st1 = 2
       ∧ fetched_status st1 = Some "inactive").
Proof.
  split.
  - eexists. split; [reflexivity|]. split; [reflexivity|].
    intros fuel. by apply stale_status_never_exits.
  - eexists _, _. split; [reflexivity|]. split; [|split].
    + intros fuel. by apply stale_active_exits_at_once.
    + reflexivity.
    + reflexivity.
Qed.

End PollingFacts.

Module HandlersFacts.
Import Handlers.

Lemma try_except_other (body : stmt) (ns ns' : namespace) (e : exception) :
  body ns = (ns', Some e) → is_NameError e = false →
  try_except_NameError body ns = (ns', Some e).
Proof.
  intros Hbody He. unfold try_except_NameError. rewrite Hbody.
  by destruct e.
Qed.

Lemma try_except_caught (body : stmt) (ns ns' : namespace) (x : string) :
  body ns = (ns', Some (NameError x)) →
  try_except_NameError body ns = (ns', None).
Proof. intros Hbody. unfold try_except_NameError. by rewrite Hbody. Qed.

Lemma try_except_no_exception (body : stmt) (ns ns' : namespace) :
  body ns = (ns', None) → try_except_NameError body ns = (ns', None).
Proof. intros Hbody. unfold try_except_NameError. by rewrite Hbody. Qed.

Lemma seq_raises (s1 s2 : stmt) (ns ns' : namespace) (e : exception) :
  s1 ns = (ns', Some e) → seq s1 s2 ns = (ns', Some e).
Proof. intros Hs1. unfold seq. by rewrite Hs1. Qed.

Lemma seq_continues (s1 s2 : stmt) (ns ns' : namespace) :
  s1 ns = (ns', None) → seq s1 s2 ns = s2 ns'.
Proof. intros Hs1. unfold seq. by rewrite Hs1. Qed.

(** [del aoi_map] under the handler never raises. *)
Lemma del_handled (x : string) (ns : namespace) :
  try_except_NameError (del x) ns = (delete x ns, None).
Proof.
  unfold try_except_NameError, del.
  destruct (ns !! x) eqn:Hx; [done|].
  by rewrite delete_id.
Qed.

(** C8: the two handlers of the notebooks catch [NameError] and nothing
    else.  An exception of any other class raised in a [try] block leaves
    it unchanged, and an exception raised in a cell outside a [try] block
    ends the cell unchanged.  In the cell that creates the map, a failure
    of the library while reading [aoi_map.center] reaches the top level,
    while an undefined [aoi_map] is passed over; the cell that
    initialises the map parameters never raises. *)
Theorem handlers_catch_only_NameError :
  (∀ (body : stmt) ns ns' e,
     body ns = (ns', Some e) → is_NameError e = false →
     try_except_NameError body ns = (ns', Some e))
  ∧ (∀ (body : stmt) ns ns' x,
       body ns = (ns', Some (NameError x)) →
       try_except_NameError body ns = (ns', None))
  ∧ (∀ (s1 s2 : stmt) ns ns' e,
       s1 ns = (ns', Some e) → seq s1 s2 ns = (ns', Some e))
  ∧ (∀ getattr build_map (ns : namespace) h e,
       ns !! "aoi_map" = Some (VObject h) →
       getattr h "center" = Raise e → is_NameError e = false →
       create_map_cell getattr build_map ns = (ns, Some e))
  ∧ (∀ getattr build_map (ns : namespace),
       ns !! "aoi_map" = None →
       create_map_cell getattr build_map ns = build_map ns)
  ∧ (∀ ns : namespace,
       initialize_map_cell ns =
         (<["center" := initial_center]>
            (<["zoom" := VInt 11]> (delete "aoi_map" ns)), None)).
Proof.
  split_and!.
  - apply try_except_other.
  - apply try_except_caught.
  - apply seq_raises.
  - intros getattr build_map ns h e Hmap Hcenter He.
    unfold create_map_cell. apply seq_raises.
    apply try_except_other; [|done]. apply seq_raises.
    unfold assign, attribute, name. rewrite Hmap. simpl. by rewrite Hcenter.
  - intros getattr build_map ns Hmap.
    unfold create_map_cell. apply seq_continues.
    apply try_except_caught with (x := "aoi_map"). apply seq_raises.
    unfold assign, attribute, name. by rewrite Hmap.
  - intros ns. unfold initialize_map_cell.
    by rewrite (seq_continues _ _ _ _ (del_handled "aoi_map" ns)).
Qed.

Lemma handlers_catch_only_NameError_witness :
  create_map_cell failing_getattr no_build {[ "aoi_map" := VObject 0 ]} =
    ({[ "aoi_map" := VObject 0 ]}, Some (LibraryError "TraitError"))
  ∧ create_map_cell failing_getattr no_build ∅ = (∅, None).
Proof.
  destruct handlers_catch_only_NameError as (_ & _ & _ & Hlib & Hname & _).
  split.
  - apply (Hlib failing_getattr no_build {[ "aoi_map" := VObject 0 ]} 0%nat);
      reflexivity.
  - apply (Hname failing_getattr no_build ∅). reflexivity.
Defined.

End HandlersFacts.

Module OrdersFacts.
Import Orders.

Section with_service.
Context {request : Type}.
Variable create_order : request → result order.
Variable data_dir : string.

Lemma place_orders_all_created (requests : list request)
    (orders list_orders : list order) (trace : list (step request)) :
  Forall2 (λ r o, create_order r = Ok o) requests orders →
  place_orders create_order requests list_orders trace =
    (list_orders ++ orders,
     trace ++ ((λ r, Await (CreateOrder r)) <$> requests), None).
Proof.
  intros Hall. revert list_orders trace.
  induction Hall as [|r o requests orders Hr _ IH]; intros list_orders trace.
  - simpl. by rewrite !app_nil_r.
  - simpl. rewrite Hr, IH. by rewrite <- !app_assoc.
Qed.

Lemma index_lookup {A} (l : list A) (i : nat) (x : A) :
  l !! i = Some x → index l i = Ok x.
Proof. intros Hi. unfold index. by rewrite Hi. Qed.

Lemma index_out_of_range {A} (l : list A) (i : nat) :
  (length l ≤ i)%nat → index l i = Raise IndexError.
Proof.
  intros Hi. unfold index. by rewrite (lookup_ge_None_2 l i Hi).
Qed.

(** C9, as the code has it: when the service accepts them, exactly the
    first min(2, n) of the n order requests are submitted, one after the
    other.  When the order id list has a first and a second element, the
    download step sends one [gather] of the two waits and then one
    [gather] of the two downloads, for these two ids, and nothing else;
    when it has fewer than two elements the step raises [IndexError]
    before any wait or download. *)
Theorem orders_submitted_and_downloaded :
  (∀ (list_of_order_requests : list request) (orders : list order),
     Forall2 (λ r o, create_order r = Ok o)
       (take 2 list_of_order_requests) orders →
     submit_orders create_order list_of_order_requests =
       (orders,
        (λ r, Await (CreateOrder r)) <$> take 2 list_of_order_requests,
        None)
     ∧ length orders = (2 `min` length list_of_order_requests)%nat)
  ∧ (∀ (order_id_list : list string) (id0 id1 : string),
       order_id_list !! 0%nat = Some id0 →
       order_id_list !! 1%nat = Some id1 →
       download_step (request := request) data_dir order_id_list =
         Ok [ Gather [Wait id0; Wait id1];
              Gather [DownloadOrder id0 data_dir; DownloadOrder id1 data_dir] ])
  ∧ (∀ order_id_list : list string,
       (length order_id_list < 2)%nat →
       download_step (request := request) data_dir order_id_list =
         Raise IndexError).
Proof.
  split_and!.
  - intros reqs orders Hall. split.
    + unfold submit_orders, order_limit.
      by rewrite (place_orders_all_created _ orders).
    + apply Forall2_length in Hall. rewrite <- Hall. apply length_take.
  - intros ids id0 id1 H0 H1.
    unfold download_step, wait_cell, download_cell.
    by rewrite !(index_lookup _ _ _ H0), !(index_lookup _ _ _ H1).
  - intros ids Hlen. unfold download_step, wait_cell.
    destruct ids as [|id0 ids]; [done|].
    destruct ids as [|id1 ids]; [done|].
    simpl in Hlen. lia.
Qed.

End with_service.

Lemma orders_submitted_and_downloaded_witness :
  submit_orders sample_create_order ["d1"; "d2"; "d3"] =
    ([Order "order-d1"; Order "order-d2"],
     [Await (CreateOrder "d1"); Await (CreateOrder "d2")], None)
  ∧ download_step (request := string) "data/use_case_1"
      ["order-d1"; "order-d2"] =
      Ok [ Gather [Wait "order-d1"; Wait "order-d2"];
           Gather [DownloadOrder "order-d1" "data/use_case_1";
                   DownloadOrder "order-d2" "data/use_case_1"] ]
  ∧ download_step (request := string) "data/use_case_1" ["order-d1"] =
      Raise IndexError.
Proof.
  destruct (orders_submitted_and_downloaded sample_create_order
              "data/use_case_1") as (Hsubmit & Hdownload & Hshort).
  split_and!.
  - apply (Hsubmit ["d1"; "d2"; "d3"] [Order "order-d1"; Order "order-d2"]).
    repeat constructor.
  - by apply Hdownload.
  - apply Hshort. simpl. lia.
Defined.

(** C9 as stated fails when a single order request was built: one order
    is submitted, and the download step then neither waits for nor
    downloads two orders, it raises [IndexError]. *)
Lemma download_step_single_order :
  let '(list_orders, _, _) := submit_orders sample_create_order ["d1"] in
  let order_id_list := collect_order_ids list_orders in
  order_id_list = ["order-d1"]
  ∧ download_step (request := string) "data/use_case_1" order_id_list =
      Raise IndexError
  ∧ ¬ ∃ id0 id1,
      download_step (request := string) "data/use_case_1" order_id_list =
        Ok [ Gather [Wait id0; Wait id1];
             Gather [DownloadOrder id0 "data/use_case_1";
                     DownloadOrder id1 "data/use_case_1"] ].
Proof.
  simpl. split_and!; [done..|]. by intros (id0 & id1 & ?).
Qed.

End OrdersFacts.

Module LocationsFacts.
Import Locations.

Section with_files.
Variable path_join : list string → string.
Variable disk : gmap string manifest.

(** The loop only appends: run on a list [s] it leaves [s] followed by
    what it leaves when run on the empty list. *)
Lemma locations_loop_appends (download_dir : string)
    (order_id_list : list string) (s : list (list string)) :
  locations_loop path_join disk download_dir order_id_list s =
    (let '(r, added) :=
       locations_loop path_join disk download_dir order_id_list [] in
     (r, s ++ added)).
Proof.
  revert s. induction order_id_list as [|order_id rest IH]; intros s; simpl.
  { by rewrite app_nil_r. }
  destruct (disk !! _) as [m|]; [|by rewrite app_nil_r].
  rewrite (IH (s ++ _)), (IH [_]).
  destruct (locations_loop _ _ _ rest []) as [r added].
  by rewrite <- app_assoc.
Qed.

Lemma get_download_locations_onto (download_dir : string)
    (order_id_list : list string) (s r s' : list (list string)) :
  get_download_locations path_join disk download_dir order_id_list [] =
    (Ok r, s') →
  s' = r ∧
  get_download_locations path_join disk download_dir order_id_list s =
    (Ok (s ++ r), s ++ r).
Proof.
  unfold get_download_locations.
  rewrite (locations_loop_appends _ _ s).
  destruct (locations_loop _ _ _ order_id_list []) as [[[]|e] added];
    simpl; [|done].
  by intros [= <- <-].
Qed.

(** C10: [get_download_locations] appends to the module-level list and
    returns it.  Of two successive calls on the list initialised to [[]],
    the second returns the location lists of the first followed by those
    it adds itself, the ones it would return alone; called again with
    the same order ids, it returns every location list twice.  The same
    holds from any content [s] of the list: the call returns [s] followed
    by its own location lists. *)
Theorem get_download_locations_accumulates :
  (∀ download_dir ids1 ids2 r1 r2 s1 s2,
     get_download_locations path_join disk download_dir ids1 [] =
       (Ok r1, s1) →
     get_download_locations path_join disk download_dir ids2 [] =
       (Ok r2, s2) →
     get_download_locations path_join disk download_dir ids2 s1 =
       (Ok (r1 ++ r2), r1 ++ r2))
  ∧ (∀ download_dir ids r s1,
       get_download_locations path_join disk download_dir ids [] =
         (Ok r, s1) →
       get_download_locations path_join disk download_dir ids s1 =
         (Ok (r ++ r), r ++ r))
  ∧ (∀ download_dir ids s r s',
       get_download_locations path_join disk download_dir ids [] =
         (Ok r, s') →
       get_download_locations path_join disk download_dir ids s =
         (Ok (s ++ r), s ++ r)).
Proof.
  split_and!.
  - intros download_dir ids1 ids2 r1 r2 s1 s2 H1 H2.
    apply (get_download_locations_onto _ _ []) in H1 as [-> _].
    by apply (get_download_locations_onto _ _ r1) in H2 as [_ ?].
  - intros download_dir ids r s1 H1.
    pose proof (get_download_locations_onto _ _ [] _ _ H1) as [-> _].
    by apply (get_download_locations_onto _ _ r) in H1 as [_ ?].
  - intros download_dir ids s r s' H1.
    by apply (get_download_locations_onto _ _ s) in H1 as [_ ?].
Qed.

End with_files.

Lemma get_download_locations_accumulates_witness :
  get_download_locations sample_join sample_disk "data/use_case_1" ["o1"; "o2"]
    [ ["data/use_case_1/o1/composite.tif";
       "data/use_case_1/o1/composite_udm2.tif"];
      ["data/use_case_1/o2/composite.tif"] ]
  = (Ok [ ["data/use_case_1/o1/composite.tif";
           "data/use_case_1/o1/composite_udm2.tif"];
          ["data/use_case_1/o2/composite.tif"];
          ["data/use_case_1/o1/composite.tif";
           "data/use_case_1/o1/composite_udm2.tif"];
          ["data/use_case_1/o2/composite.tif"] ],
     [ ["data/use_case_1/o1/composite.tif";
        "data/use_case_1/o1/composite_udm2.tif"];
       ["data/use_case_1/o2/composite.tif"];
       ["data/use_case_1/o1/composite.tif";
        "data/use_case_1/o1/composite_udm2.tif"];
       ["data/use_case_1/o2/composite.tif"] ]).
Proof.
  destruct (get_download_locations_accumulates sample_join sample_disk)
    as (_ & Hsame & _).
  apply (Hsame "data/use_case_1" ["o1"; "o2"]
           [ ["data/use_case_1/o1/composite.tif";
              "data/use_case_1/o1/composite_udm2.tif"];
             ["data/use_case_1/o2/composite.tif"] ]
           [ ["data/use_case_1/o1/composite.tif";
              "data/use_case_1/o1/composite_udm2.tif"];
             ["data/use_case_1/o2/composite.tif"] ]).
  reflexivity.
Defined.

End LocationsFacts.

(** * Further properties of the notebook code *)

Module GroupingMore.
Import Grouping GroupingFacts OrderRequests.

Lemma split_head_decompose (sep : ascii) (s : string) :
  ∃ rest, s = split_head sep s +:+ rest
          ∧ (rest = "" ∨ ∃ r, rest = String sep r).
Proof.
  induction s as [|c s (rest & Hs & Hrest)]; simpl.
  { exists "". by split; [|left]. }
  destruct (Ascii.eqb_spec c sep) as [->|Hne].
  - exists (String sep s). split; [done|]. right. by exists s.
  - exists rest. split; [|done]. rewrite Hs at 1. reflexivity.
Qed.

Lemma split_head_no_sep (sep : ascii) (s : string) :
  sep ∉ list_ascii_of_string (split_head sep s).
Proof.
  induction s as [|c s IH]; simpl.
  { apply not_elem_of_nil. }
  destruct (Ascii.eqb_spec c sep) as [->|Hne]; simpl.
  - apply not_elem_of_nil.
  - apply not_elem_of_cons. by split.
Qed.

(** The acquired date is the timestamp up to its first 'T': it contains
    no 'T', and the timestamp is the date followed by nothing or by a
    remainder that starts with 'T'. *)
Theorem get_acquired_date_splits (i : item) :
  ("T"%char ∉ list_ascii_of_string (get_acquired_date i))
  ∧ ∃ rest, acquired i = get_acquired_date i +:+ rest
            ∧ (rest = "" ∨ ∃ r, rest = String "T" r).
Proof.
  split; [apply split_head_no_sep|apply split_head_decompose].
Qed.

Lemma get_date_item_ids_nonempty (d : string) (items : list item) :
  d ∈ get_acquired_date <$> items → get_date_item_ids d items ≠ [].
Proof.
  intros Hd Hnil. apply list_elem_of_fmap in Hd as (i & -> & Hi).
  assert (item_id i ∈ get_date_item_ids (get_acquired_date i) items) as Hin.
  { unfold get_date_item_ids. apply list_elem_of_fmap_2.
    by apply list_elem_of_filter. }
  rewrite Hnil in Hin. by apply elem_of_nil in Hin.
Qed.

(** No group is empty and no id is lost or invented: an id is in some
    group exactly when it is the id of an item; the empty search result
    gives the empty mapping. *)
Theorem get_ids_by_date_groups (items : list item) :
  (∀ d ids, get_ids_by_date items !! d = Some ids → ids ≠ [])
  ∧ (∀ x, (∃ d ids, get_ids_by_date items !! d = Some ids ∧ x ∈ ids)
          ↔ x ∈ item_id <$> items)
  ∧ (items = [] → get_ids_by_date items = ∅).
Proof.
  split_and!.
  - intros d ids. rewrite lookup_get_ids_by_date.
    case_decide as Hd; [|done]. intros [= <-].
    by apply get_date_item_ids_nonempty.
  - intros x. split.
    + intros (d & ids & Hd & Hx). revert Hd. rewrite lookup_get_ids_by_date.
      case_decide; [|done]. intros [= <-].
      unfold get_date_item_ids in Hx.
      apply list_elem_of_fmap in Hx as (i & -> & Hi).
      apply list_elem_of_filter in Hi as [_ Hi].
      by apply list_elem_of_fmap_2.
    + intros Hx. apply list_elem_of_fmap in Hx as (i & -> & Hi).
      exists (get_acquired_date i), (get_date_item_ids (get_acquired_date i) items).
      split.
      * rewrite lookup_get_ids_by_date, decide_True; [done|].
        by apply list_elem_of_fmap_2.
      * unfold get_date_item_ids. apply list_elem_of_fmap_2.
        by apply list_elem_of_filter.
  - intros ->. apply map_eq. intros d.
    rewrite lookup_get_ids_by_date, lookup_empty, decide_False; [done|].
    rewrite fmap_nil. apply not_elem_of_nil.
Qed.

Lemma get_ids_by_date_groups_witness :
  get_ids_by_date [] = ∅
  ∧ get_ids_by_date sample_items !! "2019-04-03" ≠ Some [].
Proof.
  destruct (get_ids_by_date_groups []) as (_ & _ & Hnil).
  destruct (get_ids_by_date_groups sample_items) as (Hne & _ & _).
  split; [by apply Hnil|].
  intros Hempty. by apply (Hne "2019-04-03" [] Hempty).
Defined.

Lemma sum_indicator_absent (x : string) (ds : list string) :
  x ∉ ds → sum_list_with (λ d, if decide (d = x) then 1 else 0) ds = 0.
Proof.
  induction ds as [|d ds IH]; [done|].
  rewrite not_elem_of_cons. intros [Hne Hx]. simpl.
  rewrite decide_False by done. by rewrite IH.
Qed.

Lemma sum_indicator_present (x : string) (ds : list string) :
  NoDup ds → x ∈ ds →
  sum_list_with (λ d, if decide (d = x) then 1 else 0) ds = 1.
Proof.
  induction 1 as [|d ds Hd Hnodup IH]; [by intros ?%elem_of_nil|].
  rewrite elem_of_cons. simpl. destruct (decide (d = x)) as [->|Hne].
  - intros _. by rewrite sum_indicator_absent.
  - intros [->|Hx]; [done|]. by rewrite IH.
Qed.

Lemma count_by_date (ds : list string) (items : list item) :
  NoDup ds → (∀ i, i ∈ items → get_acquired_date i ∈ ds) →
  sum_list_with (λ d, length (get_date_item_ids d items)) ds = length items.
Proof.
  intros Hnodup. induction items as [|i items IH]; intros Hin.
  { clear. induction ds as [|d ds IH]; [done|]. simpl. apply IH. }
  transitivity
    (sum_list_with (λ d, if decide (d = get_acquired_date i) then 1 else 0) ds
     + sum_list_with (λ d, length (get_date_item_ids d items)) ds).
  - clear. induction ds as [|d ds IH]; [done|]. simpl. rewrite IH.
    change (i :: items) with ([i] ++ items).
    rewrite get_date_item_ids_app, length_app.
    destruct (decide (d = get_acquired_date i)) as [->|Hne].
    + rewrite get_date_item_ids_own. simpl. lia.
    + rewrite get_date_item_ids_other by done. simpl. lia.
  - rewrite sum_indicator_present, IH; [done| |done|].
    + intros j Hj. apply Hin. by right.
    + apply Hin. by left.
Qed.

Lemma sum_list_with_map {A B} (f : B → nat) (g : A → B) (l : list A) :
  sum_list_with f (g <$> l) = sum_list_with (f ∘ g) l.
Proof. induction l as [|x l IH]; [done|]. simpl. f_equal. apply IH. Qed.

(** The groups partition the search result: their sizes add up to the
    number of items. *)
Theorem get_ids_by_date_sizes (items : list item) :
  sum_list_with (λ kv : string * list string, length kv.2)
    (map_to_list (get_ids_by_date items)) = length items.
Proof.
  unfold get_ids_by_date, set_to_map.
  rewrite map_to_list_to_map.
  - rewrite sum_list_with_map.
    apply count_by_date; [apply NoDup_elements|].
    intros i Hi. apply elem_of_elements, elem_of_list_to_set.
    by apply list_elem_of_fmap_2.
  - rewrite <- list_fmap_compose. simpl.
    rewrite list_fmap_id. apply NoDup_elements.
Qed.

Section with_sdk.
Context {request : Type}.
Variable build_order_request : list string → request.



End with_sdk.


End GroupingMore.

Module GroundTruthMore.
Import GroundTruth GroundTruthFacts OrderRequests Styling MoreSamples.

Section with_geometry.
Context {geometry : Type}.
Variable transform : string → string → geometry → geometry.

Lemma is_agricultural_missing (f : feature geometry) :
  properties f !! "CLASS1" = None →
  is_agricultural f = Raise (KeyError "CLASS1").
Proof. intros Hf. unfold is_agricultural. by rewrite Hf. Qed.

Lemma load_loop_Ok_inv (to_wkt : geometry → geometry)
    (survey_data features fs : list (feature geometry)) :
  load_loop to_wkt survey_data features = Ok fs →
  Forall (λ f, is_Some (properties f !! "CLASS1")) survey_data.
Proof.
  revert features. induction survey_data as [|f rest IH]; intros features;
    simpl; [by constructor|].
  destruct (properties f !! "CLASS1") as [v|] eqn:Hv.
  - rewrite (is_agricultural_Ok f) by (by rewrite Hv). simpl.
    destruct (bool_decide _); intros Hrest; constructor; eauto.
  - by rewrite is_agricultural_missing.
Qed.

Lemma load_loop_missing (to_wkt : geometry → geometry)
    (good rest features : list (feature geometry)) (bad : feature geometry) :
  Forall (λ f, is_Some (properties f !! "CLASS1")) good →
  properties bad !! "CLASS1" = None →
  load_loop to_wkt (good ++ bad :: rest) features = Raise (KeyError "CLASS1").
Proof.
  intros Hgood Hbad. revert features.
  induction Hgood as [|f good Hf _ IH]; intros features; simpl.
  - by rewrite is_agricultural_missing.
  - rewrite (is_agricultural_Ok f Hf). simpl.
    destruct (bool_decide _); apply IH.
Qed.

(** [load_ground_truth] returns a list exactly when the dataset names its
    projection under ['init'] and every feature has a CLASS1 attribute.
    Without ['init'] it raises [KeyError] before it reads a feature; at
    the first feature without CLASS1 it raises [KeyError], whatever comes
    after. *)
Theorem load_ground_truth_success (survey_data : dataset geometry) :
  ((∃ fs, load_ground_truth transform survey_data = Ok fs) ↔
     is_Some (crs survey_data !! "init")
     ∧ Forall (λ f, is_Some (properties f !! "CLASS1")) (records survey_data))
  ∧ (crs survey_data !! "init" = None →
       load_ground_truth transform survey_data = Raise (KeyError "init"))
  ∧ (∀ good bad rest,
       is_Some (crs survey_data !! "init") →
       records survey_data = good ++ bad :: rest →
       Forall (λ f, is_Some (properties f !! "CLASS1")) good →
       properties bad !! "CLASS1" = None →
       load_ground_truth transform survey_data = Raise (KeyError "CLASS1")).
Proof.
  unfold load_ground_truth, define_to_wkt_projection. split_and!.
  - split.
    + intros [fs Hfs]. destruct (crs survey_data !! "init"); [|done].
      split; [done|]. simpl in Hfs. by eapply load_loop_Ok_inv.
    + intros [[src ->] Hall]. simpl. rewrite load_loop_filter by done. eauto.
  - by intros ->.
  - intros good bad rest [src ->] -> Hgood Hbad. simpl.
    by apply load_loop_missing.
Qed.

(** Every feature [load_ground_truth] returns is of an agricultural
    class; there are no more of them than features in the dataset, and
    their ids come in the order of the dataset. *)
Theorem load_ground_truth_agricultural (survey_data : dataset geometry)
    (fs : list (feature geometry)) :
  load_ground_truth transform survey_data = Ok fs →
  Forall agricultural_class1 fs
  ∧ (length fs ≤ length (records survey_data))%nat
  ∧ (feat_id <$> fs) `sublist_of` (feat_id <$> records survey_data).
Proof.
  unfold load_ground_truth, define_to_wkt_projection.
  destruct (crs survey_data !! "init") as [src|]; [simpl|done].
  intros Hfs. pose proof (load_loop_Ok_inv _ _ _ _ Hfs) as Hall.
  rewrite load_loop_filter in Hfs by done. simpl in Hfs.
  injection Hfs as <-. split_and!.
  - apply Forall_fmap, Forall_forall. intros f Hf.
    by apply list_elem_of_filter in Hf as [Hf _].
  - rewrite length_fmap. apply length_filter.
  - rewrite <- list_fmap_compose. simpl.
    apply fmap_sublist, sublist_filter.
Qed.

End with_geometry.

Lemma load_ground_truth_success_witness :
  load_ground_truth sample_transform survey_without_class =
    Raise (KeyError "CLASS1")
  ∧ ∃ fs, load_ground_truth sample_transform sample_survey = Ok fs.
Proof.
  split.
  - destruct (load_ground_truth_success sample_transform survey_without_class)
      as (_ & _ & Hbad).
    apply (Hbad [Feature "0" (1, 1)%Z {[ "CLASS1" := AStr "G" ]}]
                (Feature "1" (2, 2)%Z {[ "ACRES" := ANum 12 ]})
                [Feature "2" (3, 3)%Z {[ "CLASS1" := AStr "V" ]}]).
    + by eexists.
    + reflexivity.
    + repeat constructor. by eexists.
    + reflexivity.
  - destruct (load_ground_truth_success sample_transform sample_survey)
      as (Hiff & _ & _).
    apply Hiff. split; [by eexists|].
    repeat constructor; by eexists.
Defined.

Lemma load_ground_truth_agricultural_witness :
  (length [ Feature "0" (101, 101)%Z {[ "CLASS1" := AStr "G" ]};
            Feature "2" (103, 103)%Z {[ "CLASS1" := AStr "V" ]} ]
   ≤ length (records sample_survey))%nat.
Proof.
  apply (load_ground_truth_agricultural sample_transform sample_survey).
  reflexivity.
Defined.

End GroundTruthMore.

Module StylingFacts.
Import GroundTruth GroundTruthFacts OrderRequests Styling MoreSamples.

Lemma class_colors_label (c : string) :
  c ∈ agg_classes → ∃ col, class_colors !! c = Some col ∧ col ∈ colors.
Proof.
  unfold agg_classes, colors. intros Hc.
  repeat (apply elem_of_cons in Hc as [->|Hc];
          [eexists; split; [reflexivity|]; set_solver|]).
  by apply elem_of_nil in Hc.
Qed.

Lemma class_colors_other (c : string) :
  c ∉ agg_classes → class_colors !! c = None.
Proof.
  intros Hc. apply not_elem_of_list_to_map_1.
  by rewrite fst_zip.
Qed.

Lemma class_colors_inj (c1 c2 col : string) :
  class_colors !! c1 = Some col → class_colors !! c2 = Some col → c1 = c2.
Proof.
  intros H1%elem_of_list_to_map_2 H2%elem_of_list_to_map_2.
  unfold agg_classes, colors in *. simpl in *.
  rewrite !elem_of_cons, elem_of_nil in H1, H2.
  destruct_or!; simplify_eq; done.
Qed.

(** Every agricultural class has a colour of its own, and [get_color] of
    anything else raises: [KeyError] for another string. *)
Theorem get_color_labels :
  (∀ c, c ∈ agg_classes →
        ∃ col, get_color (PAttr (AStr c)) = Ok col ∧ col ∈ colors)
  ∧ (∀ c, c ∉ agg_classes → get_color (PAttr (AStr c)) = Raise (KeyError c))
  ∧ (∀ cls1 cls2 col,
       get_color cls1 = Ok col → get_color cls2 = Ok col → cls1 = cls2)
  ∧ (∀ cls col, get_color cls = Ok col →
                ∃ c, cls = PAttr (AStr c) ∧ c ∈ agg_classes).
Proof.
  split_and!.
  - intros c (col & Hcol & Hin)%class_colors_label.
    exists col. split; [|done]. simpl. unfold getitem. by rewrite Hcol.
  - intros c Hc%class_colors_other. simpl. unfold getitem. by rewrite Hc.
  - intros [[c1| |]|] [[c2| |]|] col; simpl; try done.
    unfold getitem.
    destruct (class_colors !! c1) as [col1|] eqn:H1; [|done].
    destruct (class_colors !! c2) as [col2|] eqn:H2; [|done].
    intros [= ->] [= ->]. do 2 f_equal. by eapply class_colors_inj.
  - intros [[c| |]|] col; simpl; try done. unfold getitem.
    destruct (class_colors !! c) as [col'|] eqn:Hc; [|done]. intros _.
    exists c. split; [done|].
    destruct (decide (c ∈ agg_classes)) as [|Hn]; [done|].
    apply class_colors_other in Hn. congruence.
Qed.

Lemma get_color_labels_witness :
  get_color (PAttr (AStr "V")) = Ok "#0c2c84"
  ∧ get_color (PAttr (AStr "U")) = Raise (KeyError "U").
Proof.
  destruct get_color_labels as (_ & Hother & _ & _).
  split; [reflexivity|].
  apply Hother. unfold agg_classes.
  rewrite !not_elem_of_cons. split_and!; done || apply not_elem_of_nil.
Defined.

Section with_geometry.
Context {geometry : Type}.
Variable transform : string → string → geometry → geometry.

Lemma agricultural_class1_label (f : feature geometry) :
  agricultural_class1 f →
  ∃ c, properties f !! "CLASS1" = Some (AStr c) ∧ c ∈ agg_classes.
Proof.
  unfold agricultural_class1. intros (c & Hc & Hin)%list_elem_of_fmap.
  by exists c.
Qed.

Lemma loaded_agricultural (survey_data : dataset geometry)
    (fs : list (feature geometry)) :
  load_ground_truth transform survey_data = Ok fs →
  Forall agricultural_class1 fs.
Proof.
  unfold load_ground_truth, define_to_wkt_projection.
  destruct (crs survey_data !! "init") as [src|]; [simpl|done].
  intros Hfs.
  pose proof (GroundTruthMore.load_loop_Ok_inv _ _ _ _ Hfs) as Hall.
  rewrite load_loop_filter in Hfs by done. simpl in Hfs.
  injection Hfs as <-.
  apply Forall_fmap, Forall_forall. intros f Hf.
  by apply list_elem_of_filter in Hf as [Hf _].
Qed.

(** The colour the loop finds for a feature. *)
Local Abbreviation style_color g :=
  (cls ← getitem (gf_properties g) "CLASS1"; get_color cls).

Lemma style_color_label (g : geo_feature geometry) (c col : string) :
  gf_properties g !! "CLASS1" = Some (PAttr (AStr c)) →
  class_colors !! c = Some col →
  style_color g = Ok col.
Proof.
  intros Hg Hc. unfold getitem. rewrite Hg. simpl.
  unfold getitem. by rewrite Hc.
Qed.

Lemma style_loop_styled (gs styled acc : list (geo_feature geometry)) :
  Forall2 (λ g s, ∃ col, style_color g = Ok col ∧ s = set_style g col)
    gs styled →
  style_loop gs acc = (acc ++ styled, None).
Proof.
  intros Hall. revert acc.
  induction Hall as [|g s gs styled (col & Hcol & ->) _ IH]; intros acc.
  - simpl. by rewrite app_nil_r.
  - simpl. rewrite Hcol, IH. by rewrite <- app_assoc.
Qed.

Lemma set_style_twice (g : geo_feature geometry) (col : string) :
  set_style (set_style g col) col = set_style g col.
Proof. unfold set_style. simpl. by rewrite insert_insert_eq. Qed.

(** A loaded feature and what the loop makes of it. *)
Local Abbreviation styled_as f s :=
  (∃ c col, properties f !! "CLASS1" = Some (AStr c)
            ∧ class_colors !! c = Some col
            ∧ s = set_style (of_feature f) col).

Lemma styled_exists (fs : list (feature geometry)) :
  Forall agricultural_class1 fs →
  ∃ styled, Forall2 (λ f s, styled_as f s) fs styled.
Proof.
  induction 1 as [|f fs Hf _ [styled IH]]; [by exists []|].
  apply agricultural_class1_label in Hf as (c & Hc & Hin).
  apply class_colors_label in Hin as (col & Hcol & _).
  exists (set_style (of_feature f) col :: styled).
  constructor; [|done]. by exists c, col.
Qed.

Lemma style_features_styled (fs : list (feature geometry))
    (styled : list (geo_feature geometry)) :
  Forall2 (λ f s, styled_as f s) fs styled →
  style_features (of_feature <$> fs) = (styled, None)
  ∧ style_features styled = (styled, None)
  ∧ Forall geo_agricultural styled.
Proof.
  intros Hstyled. split_and!.
  - unfold style_features. rewrite (style_loop_styled _ styled); [done|].
    apply Forall2_fmap_l. eapply Forall2_impl; [exact Hstyled|].
    intros f s (c & col & Hc & Hcol & ->). exists col. split; [|done].
    apply (style_color_label _ c); [|done].
    simpl. by rewrite lookup_fmap, Hc.
  - unfold style_features. rewrite (style_loop_styled _ styled); [done|].
    induction Hstyled as [|f s fs styled (c & col & Hc & Hcol & ->) _ IH];
      constructor; [|done].
    exists col. split; [|by rewrite set_style_twice].
    apply (style_color_label _ c); [|done].
    simpl. rewrite lookup_insert_ne by done. by rewrite lookup_fmap, Hc.
  - induction Hstyled as [|f s fs styled (c & col & Hc & Hcol & ->) _ IH];
      constructor; [|done].
    exists c. split.
    + simpl. rewrite lookup_insert_ne by done. by rewrite lookup_fmap, Hc.
    + destruct (decide (c ∈ agg_classes)) as [|Hn]; [done|].
      apply class_colors_other in Hn. congruence.
Qed.

(** Styling the features that [load_ground_truth] returned never raises:
    each one gets the style with the colour of its class and keeps its
    other properties.  Running the styling cell once more leaves the
    styled features as they are. *)
Theorem styling_after_loading (survey_data : dataset geometry)
    (fs : list (feature geometry)) :
  load_ground_truth transform survey_data = Ok fs →
  ∃ styled,
    style_features (of_feature <$> fs) = (styled, None)
    ∧ Forall2 (λ f s, ∃ c col,
                 properties f !! "CLASS1" = Some (AStr c)
                 ∧ class_colors !! c = Some col
                 ∧ s = set_style (of_feature f) col) fs styled
    ∧ style_features styled = (styled, None).
Proof.
  intros [styled Hstyled]%loaded_agricultural%styled_exists.
  destruct (style_features_styled _ _ Hstyled) as (Hfirst & Hagain & _).
  by exists styled.
Qed.

Lemma class1_values_agricultural (gs : list (geo_feature geometry)) :
  Forall geo_agricultural gs →
  ∃ vs, class1_values gs = Ok vs
        ∧ length vs = length gs
        ∧ Forall (λ v, v ∈ (PAttr ∘ AStr) <$> agg_classes) vs.
Proof.
  induction 1 as [|g gs (c & Hc & Hin) _ (vs & Hvs & Hlen & Hall)].
  { by exists []. }
  exists (PAttr (AStr c) :: vs). split_and!.
  - simpl. unfold getitem. rewrite Hc. simpl. by rewrite Hvs.
  - simpl. by rewrite Hlen.
  - constructor; [|done]. by apply (list_elem_of_fmap_2 (PAttr ∘ AStr)).
Qed.

Lemma length_remove_dups {A} `{EqDecision A} (l : list A) :
  (length (remove_dups l) ≤ length l)%nat.
Proof.
  induction l as [|x l IH]; simpl; [done|].
  destruct (decide_rel _ x l); simpl; lia.
Qed.

Lemma count_unique_agricultural (gs : list (geo_feature geometry)) :
  Forall geo_agricultural gs →
  ∃ n, count_unique_classes gs = Ok n ∧ (n ≤ 8)%nat ∧ (n ≤ length gs)%nat.
Proof.
  intros (vs & Hvs & Hlen & Hall)%class1_values_agricultural.
  unfold count_unique_classes, py_set. rewrite Hvs. simpl.
  assert (forallb hashable vs = true) as ->.
  { apply forallb_forall. intros v Hv%list_elem_of_In.
    rewrite Forall_forall in Hall.
    by apply Hall, list_elem_of_fmap in Hv as (c & -> & _). }
  simpl. eexists. split; [done|]. split.
  - change 8%nat with (length ((PAttr ∘ AStr) <$> agg_classes)).
    apply submseteq_length, NoDup_submseteq; [apply NoDup_remove_dups|].
    intros v Hv. apply (proj1 (elem_of_remove_dups _ _)) in Hv.
    rewrite Forall_forall in Hall. auto.
  - rewrite <- Hlen. apply length_remove_dups.
Qed.

(** On the features loaded and styled, [total_unique_classes] is
    computed without an exception and is at most 8, the number of
    agricultural labels, and at most the number of features. *)
Theorem total_unique_classes_bound (survey_data : dataset geometry)
    (fs : list (feature geometry)) (styled : list (geo_feature geometry)) :
  load_ground_truth transform survey_data = Ok fs →
  style_features (of_feature <$> fs) = (styled, None) →
  ∃ n, count_unique_classes styled = Ok n
       ∧ (n ≤ 8)%nat ∧ (n ≤ length fs)%nat.
Proof.
  intros [styled' Hstyled]%loaded_agricultural%styled_exists Hstyle.
  destruct (style_features_styled _ _ Hstyled) as (Hfirst & _ & Hagr).
  rewrite Hfirst in Hstyle. injection Hstyle as <-.
  destruct (count_unique_agricultural _ Hagr) as (n & Hn & H8 & Hlen).
  exists n. split_and!; [done..|].
  by rewrite (Forall2_length _ _ _ Hstyled).
Qed.

End with_geometry.

Lemma styling_after_loading_witness :
  ∃ styled : list (geo_feature (Z * Z)),
    style_features
      (of_feature <$>
         [ Feature "0" (101, 101)%Z {[ "CLASS1" := AStr "G" ]};
           Feature "2" (103, 103)%Z {[ "CLASS1" := AStr "V" ]} ])
    = (styled, None).
Proof.
  destruct (styling_after_loading sample_transform sample_survey
              [ Feature "0" (101, 101)%Z {[ "CLASS1" := AStr "G" ]};
                Feature "2" (103, 103)%Z {[ "CLASS1" := AStr "V" ]} ])
    as (styled & Hstyled & _); [reflexivity|].
  by exists styled.
Defined.

Lemma total_unique_classes_bound_witness :
  ∃ n, count_unique_classes
         [ set_style
             (of_feature (Feature "0" (101, 101)%Z {[ "CLASS1" := AStr "G" ]}))
             "#ffffd9";
           set_style
             (of_feature (Feature "2" (103, 103)%Z {[ "CLASS1" := AStr "V" ]}))
             "#0c2c84" ] = Ok n
       ∧ (n ≤ 8)%nat.
Proof.
  destruct (total_unique_classes_bound sample_transform sample_survey
              [ Feature "0" (101, 101)%Z {[ "CLASS1" := AStr "G" ]};
                Feature "2" (103, 103)%Z {[ "CLASS1" := AStr "V" ]} ]
              [ set_style
                  (of_feature
                     (Feature "0" (101, 101)%Z {[ "CLASS1" := AStr "G" ]}))
                  "#ffffd9";
                set_style
                  (of_feature
                     (Feature "2" (103, 103)%Z {[ "CLASS1" := AStr "V" ]}))
                  "#0c2c84" ])
    as (n & Hn & H8 & _); [reflexivity..|].
  by exists n.
Defined.

(** *** The draw control *)

Section with_draw.
Context {geometry : Type} `{EqDecision geometry}.
Variable within : geometry → geometry → bool.

Lemma remove_first_None {A} `{EqDecision A} (x : A) (l : list A) :
  remove_first x l = None ↔ x ∉ l.
Proof.
  induction l as [|y l IH]; simpl.
  { split; [intros _; apply not_elem_of_nil|done]. }
  rewrite not_elem_of_cons. destruct (decide (y = x)) as [->|Hne].
  - split; [done|]. by intros [? _].
  - rewrite fmap_None, IH. split; [by split|by intros [_ ?]].
Qed.

Lemma remove_first_Some {A} `{EqDecision A} (x : A) (l l' : list A) :
  remove_first x l = Some l' → l ≡ₚ x :: l'.
Proof.
  revert l'. induction l as [|y l IH]; intros l'; simpl; [done|].
  destruct (decide (y = x)) as [->|Hne].
  - by intros [= ->].
  - destruct (remove_first x l) as [l''|]; simpl; [|done].
    intros [= <-]. rewrite (IH l'') by done. apply Permutation_swap.
Qed.

Lemma remove_first_snoc {A} `{EqDecision A} (x : A) (l : list A) :
  x ∉ l → remove_first x (l ++ [x]) = Some l.
Proof.
  induction l as [|y l IH]; simpl.
  { intros _. by rewrite decide_True. }
  rewrite not_elem_of_cons. intros [Hne Hx].
  rewrite decide_False by done. by rewrite IH.
Qed.

(** Drawing a shape and deleting it again: when the shape was not among
    the areas of interest before, the list is as it was; in any case it
    has the same elements as before.  Deleting a shape that is not in
    the list raises [ValueError] and changes nothing; any other action
    changes nothing. *)
Theorem handle_draw_created_deleted
    (features : list (geo_feature geometry)) (total : nat)
    (g : geo_json geometry) (st st' : draw_state geometry) :
  (handle_draw within features total "created" g st = (st', None) →
     aois st' = aois st ++ [g]
     ∧ ∃ st'', handle_draw within features total "deleted" g st' = (st'', None)
               ∧ aois st'' ≡ₚ aois st
               ∧ (g ∉ aois st → aois st'' = aois st)
               ∧ label_value st'' = label_value st')
  ∧ (g ∉ aois st →
       handle_draw within features total "deleted" g st =
         (st, Some (LibraryError "ValueError")))
  ∧ (∀ action, action ≠ "created" → action ≠ "deleted" →
       handle_draw within features total action g st = (st, None)).
Proof.
  split_and!.
  - unfold handle_draw at 1. simpl.
    destruct (count_unique_classes _) as [n|e]; [|done].
    intros [= <-]. simpl. split; [done|].
    unfold handle_draw. simpl.
    destruct (remove_first g (aois st ++ [g])) as [l|] eqn:Hl.
    + eexists. split; [done|]. simpl. split_and!; [| |done].
      * apply remove_first_Some in Hl.
        apply Permutation_cons_inv with g. rewrite <- Hl.
        symmetry. apply Permutation_cons_append.
      * intros Hg. rewrite remove_first_snoc in Hl by done. congruence.
    + apply remove_first_None in Hl. destruct Hl.
      apply elem_of_app. right. by left.
  - intros Hg%remove_first_None. unfold handle_draw. simpl. by rewrite Hg.
  - intros action Hc%String.eqb_neq Hd%String.eqb_neq.
    unfold handle_draw. by rewrite Hc, Hd.
Qed.

Lemma class1_values_filter (P : geo_feature geometry → Prop)
    `{∀ f, Decision (P f)} (features : list (geo_feature geometry))
    (vs : list pvalue) :
  class1_values features = Ok vs →
  ∃ vs', class1_values (filter P features) = Ok vs' ∧ vs' `sublist_of` vs.
Proof.
  revert vs. induction features as [|f features IH]; intros vs; simpl.
  { intros [= <-]. by exists []. }
  destruct (getitem (gf_properties f) "CLASS1") as [c|] eqn:Hc; [|done].
  simpl. destruct (class1_values features) as [cs|]; [|done]. simpl.
  intros [= <-]. destruct (IH cs eq_refl) as (vs' & Hvs' & Hsub).
  destruct (decide (P f)).
  - rewrite filter_cons_True by done. simpl. rewrite Hc, Hvs'. simpl.
    exists (c :: vs'). split; [done|]. by constructor.
  - rewrite filter_cons_False by done. exists vs'. split; [done|].
    by constructor.
Qed.

(** When [total_unique_classes] could be computed from the features, a
    drawn shape is always accepted, and the number of classes the label
    shows for it is at most the total. *)
Theorem handle_draw_label_bound
    (features : list (geo_feature geometry)) (total : nat)
    (g : geo_json geometry) (st : draw_state geometry) :
  count_unique_classes features = Ok total →
  ∃ n, handle_draw within features total "created" g st =
         ({| aois := aois st ++ [g];
             label_value := LabelClasses n total |}, None)
       ∧ (n ≤ total)%nat.
Proof.
  unfold count_unique_classes, py_set.
  destruct (class1_values features) as [vs|] eqn:Hvs; [simpl|done].
  destruct (forallb hashable vs) eqn:Hhash; [simpl|done].
  intros [= <-].
  destruct (class1_values_filter
              (λ f, within (gf_geometry f) (gj_geometry g) = true)
              features vs Hvs) as (vs' & Hvs' & Hsub).
  unfold handle_draw, count_unique_classes, py_set. simpl.
  rewrite Hvs'. simpl.
  assert (forallb hashable vs' = true) as ->.
  { rewrite forallb_forall in Hhash. apply forallb_forall.
    intros v Hv%list_elem_of_In. apply Hhash, list_elem_of_In.
    by eapply sublist_subseteq. }
  simpl. eexists. split; [done|].
  apply submseteq_length, NoDup_submseteq; [apply NoDup_remove_dups|].
  intros v Hv. apply (proj1 (elem_of_remove_dups _ _)) in Hv.
  apply elem_of_remove_dups. by eapply sublist_subseteq.
Qed.

End with_draw.

Lemma handle_draw_created_deleted_witness :
  handle_draw sample_within [] 0 "deleted" (GeoJson (1, 1)%Z)
    (DrawState [] LabelEmpty)
  = (DrawState [] LabelEmpty, Some (LibraryError "ValueError"))
  ∧ handle_draw sample_within [] 0 "edited" (GeoJson (1, 1)%Z)
      (DrawState [] LabelEmpty)
    = (DrawState [] LabelEmpty, None)
  ∧ aois (DrawState [GeoJson (1, 1)%Z] (LabelClasses 0 0)) =
      [] ++ [GeoJson (1, 1)%Z].
Proof.
  destruct (handle_draw_created_deleted sample_within [] 0
              (GeoJson (1, 1)%Z) (DrawState [] LabelEmpty)
              (DrawState [GeoJson (1, 1)%Z] (LabelClasses 0 0)))
    as (Hcreated & Hdeleted & Hother).
  split_and!.
  - apply Hdeleted. apply not_elem_of_nil.
  - by apply Hother.
  - by apply Hcreated.
Defined.

Lemma handle_draw_label_bound_witness :
  ∃ n, handle_draw sample_within
         [ set_style
             (of_feature (Feature "0" (101, 101)%Z {[ "CLASS1" := AStr "G" ]}))
             "#ffffd9";
           set_style
             (of_feature (Feature "2" (103, 103)%Z {[ "CLASS1" := AStr "V" ]}))
             "#0c2c84" ]
         2 "created" (GeoJson (1, 1)%Z) (DrawState [] LabelEmpty)
       = (DrawState [GeoJson (1, 1)%Z] (LabelClasses n 2), None)
       ∧ (n ≤ 2)%nat.
Proof.
  apply (handle_draw_label_bound sample_within). reflexivity.
Defined.

End StylingFacts.

Module NdviMore.
Import Ndvi NdviFacts Normalize.

Local Open Scope Z_scope.

Lemma band_ok_pixel (b : band) (i j : nat) (z : Z) :
  band_ok b → pixel b i j = Some z → is_uint16 z.
Proof.
  unfold band_ok, pixel. intros Hok Hz.
  destruct (b !! i) as [row|] eqn:Hrow; [simpl in Hz|done].
  rewrite Forall_lookup in Hok. specialize (Hok i row Hrow).
  rewrite Forall_lookup in Hok. by apply (Hok j z).
Qed.

(** On valid bands, wherever the sum of the two bands is not zero and
    fits in 16 bits, the array holds the reference NDVI of the pixel, a
    finite value between -1 and 1. *)
Theorem ndvi_reference_without_wrap (band_nir band_red : band)
    (i j : nat) (nir red : Z) :
  band_ok band_nir → band_ok band_red →
  pixel band_nir i j = Some nir → pixel band_red i j = Some red →
  nir + red ≠ 0 → nir + red < 65536 →
  ∃ q, pixel (ndvi band_nir band_red) i j = Some (Fin q)
       ∧ (q == ndvi_reference nir red)%Q
       ∧ (-1 <= q)%Q ∧ (q <= 1)%Q.
Proof.
  intros Hok_nir Hok_red Hnir Hred Hnz Hfit.
  pose proof (band_ok_pixel _ _ _ _ Hok_nir Hnir) as Hn.
  pose proof (band_ok_pixel _ _ _ _ Hok_red Hred) as Hr.
  destruct (ndvi_pixel_range_without_wrap nir red Hn Hr) as (q & Hq & Hlo & Hhi).
  { unfold is_uint16, uint16_modulus in *. lia. }
  exists q. rewrite pixel_ndvi, Hnir, Hred. simpl. rewrite Hq.
  split_and!; [done| |done..].
  pose proof (ndvi_pixel_without_wrap nir red Hn Hr Hfit Hnz) as Heq.
  by rewrite Hq in Heq.
Qed.

Lemma ndvi_reference_without_wrap_witness :
  ∃ q, pixel (ndvi [[0; 3000]] [[0; 1000]]) 0 1 = Some (Fin q)
       ∧ (q == ndvi_reference 3000 1000)%Q.
Proof.
  destruct (ndvi_reference_without_wrap [[0; 3000]] [[0; 1000]] 0 1 3000 1000)
    as (q & Hq & Heq & _); try done.
  - repeat constructor; unfold uint16_modulus; lia.
  - repeat constructor; unfold uint16_modulus; lia.
  - by exists q.
Defined.

Lemma uint16_add_zero (nir red : Z) :
  is_uint16 nir → is_uint16 red →
  uint16_add nir red = 0 ↔ nir + red = 0 ∨ nir + red = 65536.
Proof.
  unfold is_uint16, uint16_add, uint16_modulus. intros Hn Hr. split.
  - intros Hmod.
    destruct (Z_lt_le_dec (nir + red) 65536) as [Hlt|Hge].
    + rewrite Z.mod_small in Hmod by lia. by left.
    + right. replace (nir + red) with ((nir + red - 65536) + 1 * 65536) in Hmod
        by lia.
      rewrite Z.mod_add, Z.mod_small in Hmod by lia. lia.
  - intros [->| ->]; reflexivity.
Qed.

(** The value of a pixel, by the sum of its two bands: it is finite
    unless the sum is 0 or 65536; it is NaN when both bands are 0 or both
    are 32768, [+inf] when the sum is 65536 with NIR above Red, and
    [-inf] when the sum is 65536 with NIR below Red. *)
Theorem ndvi_pixel_cases (nir red : Z) :
  is_uint16 nir → is_uint16 red →
  ((∃ q, ndvi_pixel nir red = Fin q) ↔ nir + red ≠ 0 ∧ nir + red ≠ 65536)
  ∧ (ndvi_pixel nir red = NaN ↔ nir = red ∧ (nir = 0 ∨ nir = 32768))
  ∧ (ndvi_pixel nir red = PInf ↔ nir + red = 65536 ∧ red < nir)
  ∧ (ndvi_pixel nir red = NInf ↔ nir + red = 65536 ∧ nir < red).
Proof.
  intros Hn Hr. pose proof (uint16_add_zero nir red Hn Hr) as Hzero.
  unfold is_uint16, uint16_modulus in *.
  unfold ndvi_pixel, float_div.
  destruct (decide (uint16_add nir red = 0)) as [Hz|Hz].
  - apply Hzero in Hz.
    destruct (inject_Z nir - inject_Z red ?= 0)%Q eqn:Hcmp.
    + apply Qeq_alt in Hcmp.
      assert (inject_Z nir == inject_Z red)%Q as Heq by lra.
      apply (proj1 (inject_Z_injective nir red)) in Heq.
      split_and!; split; try done; try lia; try (by intros [? ?]).
    + apply Qlt_alt in Hcmp.
      assert (inject_Z nir < inject_Z red)%Q as Hlt by lra.
      rewrite <- Zlt_Qlt in Hlt.
      split_and!; split; try done; try lia; try (by intros [? ?]).
    + apply Qgt_alt in Hcmp.
      assert (inject_Z red < inject_Z nir)%Q as Hlt by lra.
      rewrite <- Zlt_Qlt in Hlt.
      split_and!; split; try done; try lia; try (by intros [? ?]).
  - assert (nir + red ≠ 0 ∧ nir + red ≠ 65536) as Hsum by tauto.
    split_and!; split; try done; try lia; eauto.
Qed.

Lemma ndvi_pixel_cases_witness :
  ndvi_pixel 40000 25536 = PInf ↔ 40000 + 25536 = 65536 ∧ 25536 < 40000.
Proof.
  apply (ndvi_pixel_cases 40000 25536);
    unfold is_uint16, uint16_modulus; lia.
Defined.

(** *** The range of the defined values *)

Lemma fleb_refl (a : fval) : isnan a = false → fleb a a = true.
Proof.
  destruct a; simpl; try done. intros _. apply Qle_bool_iff. apply Qle_refl.
Qed.

Lemma fleb_trans (a b c : fval) :
  isnan b = false → fleb a b = true → fleb b c = true → fleb a c = true.
Proof.
  destruct a, b, c; simpl; try done.
  rewrite !Qle_bool_iff. intros _. apply Qle_trans.
Qed.

Lemma fleb_total (a b : fval) :
  isnan a = false → isnan b = false → fleb a b = false → fleb b a = true.
Proof.
  destruct a as [p| | |], b as [q| | |]; simpl; try done.
  intros _ _ Hpq. apply Qle_bool_iff.
  destruct (Qlt_le_dec p q) as [Hlt|Hle]; [|done].
  apply Qlt_le_weak, Qle_bool_iff in Hlt. congruence.
Qed.

Lemma fmin_defined (a b : fval) :
  isnan a = false → isnan b = false →
  isnan (fmin a b) = false ∧ (fmin a b = a ∨ fmin a b = b)
  ∧ fleb (fmin a b) a = true ∧ fleb (fmin a b) b = true.
Proof.
  intros Ha Hb.
  assert (fmin a b = if fleb a b then a else b) as ->.
  { by destruct a, b. }
  destruct (fleb a b) eqn:Hab.
  - split_and!; try done; [by left|by apply fleb_refl].
  - split_and!; try done; [by right|by apply fleb_total|by apply fleb_refl].
Qed.

Lemma fmax_defined (a b : fval) :
  isnan a = false → isnan b = false →
  isnan (fmax a b) = false ∧ (fmax a b = a ∨ fmax a b = b)
  ∧ fleb a (fmax a b) = true ∧ fleb b (fmax a b) = true.
Proof.
  intros Ha Hb.
  assert (fmax a b = if fleb a b then b else a) as ->.
  { by destruct a, b. }
  destruct (fleb a b) eqn:Hab.
  - split_and!; try done; [by right|by apply fleb_refl].
  - split_and!; try done; [by left|by apply fleb_refl|by apply fleb_total].
Qed.

Lemma foldl_fmin_least (v : fval) (vs : list fval) :
  isnan v = false → Forall (λ w, isnan w = false) vs →
  isnan (foldl fmin v vs) = false
  ∧ foldl fmin v vs ∈ v :: vs
  ∧ Forall (λ w, fleb (foldl fmin v vs) w = true) (v :: vs).
Proof.
  intros Hv Hvs. revert v Hv.
  induction Hvs as [|w vs Hw _ IH]; intros v Hv; simpl.
  { split_and!; [done|by left|]. constructor; [by apply fleb_refl|done]. }
  destruct (fmin_defined v w Hv Hw) as (Hnan & Hor & Hlev & Hlew).
  destruct (IH (fmin v w) Hnan) as (Hm & Hin & Hall).
  apply Forall_cons in Hall as [Hhead Hall].
  split_and!; [done| |].
  - apply elem_of_cons in Hin as [->|Hin].
    + destruct Hor as [-> | ->]; [by left|right; by left].
    + right. by right.
  - repeat constructor; [..|done];
      by eapply (fleb_trans _ (fmin v w)).
Qed.

Lemma foldl_fmax_greatest (v : fval) (vs : list fval) :
  isnan v = false → Forall (λ w, isnan w = false) vs →
  isnan (foldl fmax v vs) = false
  ∧ foldl fmax v vs ∈ v :: vs
  ∧ Forall (λ w, fleb w (foldl fmax v vs) = true) (v :: vs).
Proof.
  intros Hv Hvs. revert v Hv.
  induction Hvs as [|w vs Hw _ IH]; intros v Hv; simpl.
  { split_and!; [done|by left|]. constructor; [by apply fleb_refl|done]. }
  destruct (fmax_defined v w Hv Hw) as (Hnan & Hor & Hlev & Hlew).
  destruct (IH (fmax v w) Hnan) as (Hm & Hin & Hall).
  apply Forall_cons in Hall as [Hhead Hall].
  split_and!; [done| |].
  - apply elem_of_cons in Hin as [->|Hin].
    + destruct Hor as [-> | ->]; [by left|right; by left].
    + right. by right.
  - repeat constructor; [..|done];
      by eapply (fleb_trans _ (fmax v w)).
Qed.

(** When an array has a value that is not NaN, [np.nanmin] and
    [np.nanmax] return two of its values that are not NaN, below and
    above every other such value: the limits of the colour scale
    enclose every defined NDVI. *)
Theorem nanmin_nanmax_enclose (a : list (list fval)) :
  histogram_input a ≠ [] →
  ∃ lo hi, nanmin a = Ok lo ∧ nanmax a = Ok hi
           ∧ lo ∈ histogram_input a ∧ hi ∈ histogram_input a
           ∧ ∀ v, v ∈ histogram_input a →
                  fleb lo v = true ∧ fleb v hi = true.
Proof.
  intros Hne. unfold nanmin, nanmax.
  rewrite (reduce_defined fmin fmin_nan_l fmin_nan_r),
          (reduce_defined fmax fmax_nan_l fmax_nan_r).
  assert (Forall (λ w, isnan w = false) (histogram_input a)) as Hdef.
  { apply Forall_forall. intros w Hw.
    by apply list_elem_of_filter in Hw as [? _]. }
  destruct (histogram_input a) as [|v vs]; [done|].
  apply Forall_cons in Hdef as [Hv Hvs].
  destruct (foldl_fmin_least v vs Hv Hvs) as (_ & Hlo & Hleast).
  destruct (foldl_fmax_greatest v vs Hv Hvs) as (_ & Hhi & Hgreatest).
  eexists _, _. split_and!; [done..|].
  rewrite Forall_forall in Hleast, Hgreatest. auto.
Qed.

Lemma nanmin_nanmax_enclose_witness :
  ∃ lo hi, nanmin [[Fin (1 # 2); NaN]; [Fin (-1 # 4); Fin (3 # 4)]] = Ok lo
           ∧ nanmax [[Fin (1 # 2); NaN]; [Fin (-1 # 4); Fin (3 # 4)]] = Ok hi
           ∧ fleb lo (Fin (1 # 2)) = true ∧ fleb (Fin (1 # 2)) hi = true.
Proof.
  destruct (nanmin_nanmax_enclose
              [[Fin (1 # 2); NaN]; [Fin (-1 # 4); Fin (3 # 4)]])
    as (lo & hi & Hlo & Hhi & _ & _ & Hall); [done|].
  exists lo, hi. split_and!; [done..| |]; apply Hall; by left.
Defined.

(** *** The colour normalisation *)

Section normalize.
Local Open Scope Q_scope.
Variables vmin vmax midpoint : Q.
Hypothesis vmin_lt_mid : vmin < midpoint.
Hypothesis mid_lt_vmax : midpoint < vmax.

(** The two lines of the interpolation, as the code computes them. *)
Let lower (x : Q) : Q := ((1 # 2) - 0) / (midpoint - vmin) * (x - vmin) + 0.
Let upper (x : Q) : Q :=
  (1 - (1 # 2)) / (vmax - midpoint) * (x - midpoint) + (1 # 2).
Let scale (x : Q) : Q :=
  interp x [(vmin, 0); (midpoint, 1 # 2); (vmax, 1)].

Lemma lower_slope : 0 < ((1 # 2) - 0) / (midpoint - vmin).
Proof. apply Qlt_shift_div_l; lra. Qed.

Lemma upper_slope : 0 < (1 - (1 # 2)) / (vmax - midpoint).
Proof. apply Qlt_shift_div_l; lra. Qed.

Lemma lower_mono (x y : Q) : x <= y → lower x <= lower y.
Proof.
  intros Hxy. unfold lower. pose proof lower_slope as Hs.
  generalize dependent (((1 # 2) - 0) / (midpoint - vmin)). intros c Hc.
  nra.
Qed.

Lemma upper_mono (x y : Q) : x <= y → upper x <= upper y.
Proof.
  intros Hxy. unfold upper. pose proof upper_slope as Hs.
  generalize dependent ((1 - (1 # 2)) / (vmax - midpoint)). intros c Hc.
  nra.
Qed.

Lemma lower_vmin : lower vmin == 0.
Proof. unfold lower. field. lra. Qed.

Lemma lower_mid : lower midpoint == 1 # 2.
Proof. unfold lower. field. lra. Qed.

Lemma upper_mid : upper midpoint == 1 # 2.
Proof. unfold upper. field. lra. Qed.

Lemma upper_vmax : upper vmax == 1.
Proof. unfold upper. field. lra. Qed.

Lemma lower_eq (x y : Q) : x == y → lower x == lower y.
Proof. intros Hxy. unfold lower. by rewrite Hxy. Qed.

Lemma upper_eq (x y : Q) : x == y → upper x == upper y.
Proof. intros Hxy. unfold upper. by rewrite Hxy. Qed.

(** The four pieces of the scale. *)
Lemma scale_pieces (x : Q) :
  (x < vmin ∧ scale x == 0)
  ∨ (vmin <= x ∧ x < midpoint ∧ scale x == lower x)
  ∨ (midpoint <= x ∧ x < vmax ∧ scale x == upper x)
  ∨ (vmax <= x ∧ scale x == 1).
Proof.
  unfold scale, interp. simpl.
  destruct (Qlt_le_dec vmax x) as [Hhi|Hhi].
  { right. right. right. split; [lra|reflexivity]. }
  destruct (Qlt_le_dec x vmin) as [Hlo|Hlo].
  { left. split; [done|reflexivity]. }
  destruct (Qlt_le_dec x midpoint) as [Hm|Hm].
  { right. left. split_and!; [done..|].
    destruct (Qeq_dec vmin x) as [Heq|Hne]; [|reflexivity].
    rewrite <- (lower_eq _ _ Heq). symmetry. apply lower_vmin. }
  destruct (Qlt_le_dec x vmax) as [Hv|Hv].
  { right. right. left. split_and!; [done..|].
    destruct (Qeq_dec midpoint x) as [Heq|Hne]; [|reflexivity].
    rewrite <- (upper_eq _ _ Heq). symmetry. apply upper_mid. }
  right. right. right. split; [done|reflexivity].
Qed.

Lemma scale_range (x : Q) : 0 <= scale x ∧ scale x <= 1.
Proof.
  pose proof lower_vmin. pose proof lower_mid.
  pose proof upper_mid. pose proof upper_vmax.
  destruct (scale_pieces x)
    as [(? & ->)|[(? & ? & ->)|[(? & ? & ->)|(? & ->)]]]; [lra| | |lra].
  - pose proof (lower_mono vmin x). pose proof (lower_mono x midpoint). lra.
  - pose proof (upper_mono midpoint x). pose proof (upper_mono x vmax). lra.
Qed.

Lemma scale_mono (x y : Q) : x <= y → scale x <= scale y.
Proof.
  intros Hxy.
  pose proof lower_vmin. pose proof lower_mid.
  pose proof upper_mid. pose proof upper_vmax.
  pose proof (lower_mono x y). pose proof (upper_mono x y).
  pose proof (lower_mono vmin x). pose proof (lower_mono x midpoint).
  pose proof (lower_mono vmin y). pose proof (lower_mono y midpoint).
  pose proof (lower_mono midpoint y). pose proof (lower_mono midpoint x).
  pose proof (upper_mono midpoint x). pose proof (upper_mono x vmax).
  pose proof (upper_mono midpoint y). pose proof (upper_mono y vmax).
  pose proof (upper_mono x midpoint). pose proof (upper_mono y midpoint).
  destruct (scale_pieces x)
    as [(? & ->)|[(? & ? & ->)|[(? & ? & ->)|(? & ->)]]];
  destruct (scale_pieces y)
    as [(? & ->)|[(? & ? & ->)|[(? & ? & ->)|(? & ->)]]];
  lra.
Qed.

(** With [vmin < midpoint < vmax] the normalisation masks exactly the NaN
    values and sends every other value into [[0, 1]], order preserved,
    with [vmin], [midpoint] and [vmax] sent to 0, 1/2 and 1. *)
Theorem MidpointNormalize_scale :
  (∀ v, MidpointNormalize vmin vmax midpoint v = None ↔ v = NaN)
  ∧ (∀ v, v ≠ NaN →
       ∃ q, MidpointNormalize vmin vmax midpoint v = Some (Fin q)
            ∧ 0 <= q ∧ q <= 1)
  ∧ (∃ q0 qm q1,
       MidpointNormalize vmin vmax midpoint (Fin vmin) = Some (Fin q0)
       ∧ MidpointNormalize vmin vmax midpoint (Fin midpoint) = Some (Fin qm)
       ∧ MidpointNormalize vmin vmax midpoint (Fin vmax) = Some (Fin q1)
       ∧ q0 == 0 ∧ qm == 1 # 2 ∧ q1 == 1)
  ∧ (∀ a b qa qb,
       fleb a b = true →
       MidpointNormalize vmin vmax midpoint a = Some (Fin qa) →
       MidpointNormalize vmin vmax midpoint b = Some (Fin qb) →
       qa <= qb).
Proof.
  split_and!.
  - intros []; by split.
  - intros [x| | |] Hv; [| | |done]; eexists; (split; [reflexivity|]).
    + apply scale_range.
    + simpl. lra.
    + simpl. lra.
  - exists (scale vmin), (scale midpoint), (scale vmax).
    split_and!; try reflexivity.
    + pose proof lower_vmin.
      destruct (scale_pieces vmin)
        as [(? & ->)|[(? & ? & ->)|[(? & ? & ->)|(? & ->)]]]; lra.
    + pose proof upper_mid.
      destruct (scale_pieces midpoint)
        as [(? & ->)|[(? & ? & ->)|[(? & ? & ->)|(? & ->)]]]; lra.
    + destruct (scale_pieces vmax)
        as [(? & ->)|[(? & ? & ->)|[(? & ? & ->)|(? & ->)]]]; lra.
  - intros [x| | |] [y| | |] qa qb; simpl; try done;
      intros Hab [= <-] [= <-];
      first
        [ change (scale x <= scale y); apply scale_mono;
          by apply Qle_bool_iff
        | change (scale x <= 1); apply scale_range
        | change (0 <= scale y); apply scale_range
        | lra ].
Qed.

End normalize.

Lemma MidpointNormalize_scale_witness :
  ∃ q, MidpointNormalize (-1 # 2) (9 # 10) (1 # 10) (Fin (3 # 10))
         = Some (Fin q)
       ∧ (0 <= q)%Q ∧ (q <= 1)%Q.
Proof.
  destruct (MidpointNormalize_scale (-1 # 2) (9 # 10) (1 # 10))
    as (_ & Hrange & _); [reflexivity..|].
  by apply Hrange.
Defined.

End NdviMore.

Module PollingMore.
Import Polling PollingFacts PollingView.

Lemma loop_body_visible (server1 server2 : nat → assets_response)
    (st1 st2 : poll_state) :
  visible st1 = visible st2 →
  visible (loop_body server1 st1) = visible (loop_body server2 st2).
Proof.
  unfold visible, loop_body. intros [= -> -> -> ->].
  by destruct (String.eqb _ _).
Qed.

Lemma poll_loop_visible (server1 server2 : nat → assets_response)
    (fuel : nat) (st1 st2 : poll_state) :
  visible st1 = visible st2 →
  visible <$> poll_loop server1 fuel st1 =
  visible <$> poll_loop server2 fuel st2.
Proof.
  revert st1 st2. induction fuel as [|fuel IH]; intros st1 st2 Hvis; simpl.
  - assert (asset_activated st1 = asset_activated st2) as ->
      by (by injection Hvis).
    destruct (asset_activated st2); simpl; [by rewrite Hvis|done].
  - assert (asset_activated st1 = asset_activated st2) as ->
      by (by injection Hvis).
    destruct (asset_activated st2); simpl; [by rewrite Hvis|].
    by apply IH, loop_body_visible.
Qed.

(** The loop never looks at what the server answers: on any two servers
    it stops or goes on alike, and leaves the same names, request count
    and output. *)
Theorem poll_loop_ignores_server (server1 server2 : nat → assets_response)
    (fuel : nat) (st : poll_state) :
  visible <$> poll_loop server1 fuel st =
  visible <$> poll_loop server2 fuel st.
Proof. by apply poll_loop_visible. Qed.

(** Entered with [asset_activated = False], the loop either stops after
    exactly one turn, having sent one request and printed the status and
    the message (the asset was active before the loop), or it runs for
    ever. *)
Theorem poll_loop_once_or_never (server : nat → assets_response)
    (st : poll_state) :
  asset_activated st = false →
  (status (analytic_asset st) = "active"
   ∧ ∀ fuel, poll_loop server (S fuel) st =
       Some {| assets := server (requests st);
               analytic_asset := analytic_asset st;
               asset_activated := true;
               requests := S (requests st);
               printed := printed st ++
                 ["active"; "Asset is active and ready to download"] |})
  ∨ (status (analytic_asset st) ≠ "active"
     ∧ ∀ fuel, poll_loop server fuel st = None).
Proof.
  intros Hact.
  destruct (decide (status (analytic_asset st) = "active")) as [Heq|Hne].
  - left. split; [done|]. intros fuel.
    rewrite (stale_active_exits_at_once server fuel st Hact Heq).
    unfold loop_body. rewrite Heq. simpl. by rewrite <- app_assoc.
  - right. split; [done|]. intros fuel.
    by apply stale_status_never_exits.
Qed.

Lemma poll_loop_once_or_never_witness :
  poll_loop server_activates 5
    (PollState ∅ (Asset "activating") false 1 []) = None.
Proof.
  destruct (poll_loop_once_or_never server_activates
              (PollState ∅ (Asset "activating") false 1 []))
    as [[Hactive _]|[_ Hnever]]; [reflexivity|discriminate|apply Hnever].
Defined.

End PollingMore.

Module HandlersMore.
Import Handlers HandlersFacts.

Section with_library.
Variable getattr : nat → string → result value.
Variable build_map : stmt.

Lemma initialize_map_cell_run (ns : namespace) :
  initialize_map_cell ns =
    (<["center" := initial_center]>
       (<["zoom" := VInt 11]> (delete "aoi_map" ns)), None).
Proof.
  unfold initialize_map_cell.
  by rewrite (seq_continues _ _ _ _ (del_handled "aoi_map" ns)).
Qed.

(** Run one after the other, the two map cells never reuse the
    parameters of an earlier map: the first cell deletes [aoi_map], so
    the [try] block of the second is always left by its [NameError], and
    the map is built with zoom 11 and the initial center. *)
Theorem map_cells_in_sequence (ns : namespace) :
  let ns1 := (initialize_map_cell ns).1 in
  seq initialize_map_cell (create_map_cell getattr build_map) ns =
    build_map ns1
  ∧ ns1 !! "aoi_map" = None
  ∧ ns1 !! "zoom" = Some (VInt 11)
  ∧ ns1 !! "center" = Some initial_center.
Proof.
  rewrite initialize_map_cell_run. simpl.
  assert ((<["center" := initial_center]>
             (<["zoom" := VInt 11]> (delete "aoi_map" ns)) : namespace)
            !! "aoi_map" = None) as Hgone.
  { rewrite !lookup_insert_ne by done. apply lookup_delete_eq. }
  split_and!; [|done|..].
  - rewrite (seq_continues _ _ _ _ (initialize_map_cell_run ns)).
    unfold create_map_cell. apply seq_continues.
    apply try_except_caught with (x := "aoi_map"). apply seq_raises.
    unfold assign, attribute, name. by rewrite Hgone.
  - rewrite lookup_insert_ne by done. apply lookup_insert_eq.
  - apply lookup_insert_eq.
Qed.

(** The second cell on its own, with a map at hand: center and zoom are
    taken from the map.  When reading the zoom fails, the center is
    already rebound: an exception other than [NameError] ends the cell
    there, a [NameError] from the library is passed over and the map is
    built with the new center and the old zoom. *)
Theorem create_map_cell_reuses (ns : namespace) (h : nat) (c : value) :
  ns !! "aoi_map" = Some (VObject h) →
  getattr h "center" = Ok c →
  (∀ z, getattr h "zoom" = Ok z →
        create_map_cell getattr build_map ns =
          build_map (<["zoom" := z]> (<["center" := c]> ns)))
  ∧ (∀ e, getattr h "zoom" = Raise e → is_NameError e = false →
          create_map_cell getattr build_map ns =
            (<["center" := c]> ns, Some e))
  ∧ (∀ x, getattr h "zoom" = Raise (NameError x) →
          create_map_cell getattr build_map ns =
            build_map (<["center" := c]> ns)).
Proof.
  intros Hmap Hcenter.
  assert (assign "center" (attribute getattr "aoi_map" "center") ns =
            (<["center" := c]> ns, None)) as Hfirst.
  { unfold assign, attribute, name. rewrite Hmap. simpl. by rewrite Hcenter. }
  assert ((<["center" := c]> ns : namespace) !! "aoi_map" = Some (VObject h))
    as Hmap' by (by rewrite lookup_insert_ne).
  split_and!.
  - intros z Hzoom. unfold create_map_cell. apply seq_continues.
    apply try_except_no_exception.
    rewrite (seq_continues _ _ _ _ Hfirst).
    unfold assign, attribute, name. rewrite Hmap'. simpl. by rewrite Hzoom.
  - intros e Hzoom He. unfold create_map_cell. apply seq_raises.
    apply try_except_other; [|done].
    rewrite (seq_continues _ _ _ _ Hfirst).
    unfold assign, attribute, name. rewrite Hmap'. simpl. by rewrite Hzoom.
  - intros x Hzoom. unfold create_map_cell. apply seq_continues.
    apply try_except_caught with (x := x).
    rewrite (seq_continues _ _ _ _ Hfirst).
    unfold assign, attribute, name. rewrite Hmap'. simpl. by rewrite Hzoom.
Qed.

End with_library.

Lemma create_map_cell_reuses_witness :
  create_map_cell
    (λ h attr, if String.eqb attr "center" then Ok (VLatLon 1 2)
               else Raise (LibraryError "TraitError"))
    no_build {[ "aoi_map" := VObject 0 ]}
  = (<["center" := VLatLon 1 2]> {[ "aoi_map" := VObject 0 ]},
     Some (LibraryError "TraitError")).
Proof.
  destruct (create_map_cell_reuses
              (λ h attr, if String.eqb attr "center" then Ok (VLatLon 1 2)
                         else Raise (LibraryError "TraitError"))
              no_build {[ "aoi_map" := VObject 0 ]} 0%nat (VLatLon 1 2))
    as (_ & Hfail & _); [reflexivity..|].
  by apply Hfail.
Defined.

End HandlersMore.

Module OrdersMore.
Import Orders OrdersFacts.

Section with_service.
Context {request : Type}.
Variable create_order : request → result order.
Variable data_dir : string.

Lemma place_orders_prefix (requests : list request)
    (list_orders : list order) (trace : list (step request)) :
  ∃ new,
    Forall2 (λ r o, create_order r = Ok o) (take (length new) requests) new
    ∧ match place_orders create_order requests list_orders trace with
      | (orders, trace', None) =>
          orders = list_orders ++ new
          ∧ length new = length requests
          ∧ trace' = trace ++ ((λ r, Await (CreateOrder r)) <$> requests)
      | (orders, trace', Some e) =>
          orders = list_orders ++ new
          ∧ (∃ r, requests !! length new = Some r ∧ create_order r = Raise e)
          ∧ trace' = trace ++ ((λ r, Await (CreateOrder r))
                                 <$> take (S (length new)) requests)
      end.
Proof.
  revert list_orders trace.
  induction requests as [|r requests IH]; intros list_orders trace; simpl.
  { exists []. split; [constructor|]. by rewrite !app_nil_r. }
  destruct (create_order r) as [o|e] eqn:Hr.
  - destruct (IH (list_orders ++ [o])
                 (trace ++ [Await (CreateOrder r)])) as (new & Hnew & Hrun).
    exists (o :: new). split; [by constructor|].
    destruct (place_orders _ _ _ _) as [[orders trace'] [e|]];
      simpl; destruct Hrun as (-> & Hmid & ->);
      rewrite <- !app_assoc; split_and!; try done.
    by rewrite Hmid.
  - exists []. simpl. split; [constructor|].
    rewrite app_nil_r. split_and!; [done| |done]. by exists r.
Qed.

(** The submission cell sends the requests in order and stops at the
    first one the service refuses: it never sends more than two, the
    orders it has are those of the requests before the refused one, and
    when none is refused there are min(2, n) of them. *)
Theorem submit_orders_bounded (list_of_order_requests : list request)
    (orders : list order) (trace : list (step request))
    (exn : option exception) :
  submit_orders create_order list_of_order_requests = (orders, trace, exn) →
  (length orders ≤ 2)%nat ∧ (length trace ≤ 2)%nat
  ∧ trace `prefix_of`
      ((λ r, Await (CreateOrder r)) <$> list_of_order_requests)
  ∧ Forall2 (λ r o, create_order r = Ok o)
      (take (length orders) list_of_order_requests) orders
  ∧ (exn = None →
       length orders = (2 `min` length list_of_order_requests)%nat
       ∧ length trace = length orders)
  ∧ (∀ e, exn = Some e →
       length trace = S (length orders)
       ∧ ∃ r, list_of_order_requests !! length orders = Some r
              ∧ create_order r = Raise e).
Proof.
  unfold submit_orders, order_limit. intros Hrun.
  destruct (place_orders_prefix (take 2 list_of_order_requests) [] [])
    as (new & Hnew & Hspec).
  rewrite Hrun in Hspec. simpl in Hspec.
  pose proof (Forall2_length _ _ _ Hnew) as Hlen.
  rewrite length_take, length_take in Hlen.
  assert (take (length new) (take 2 list_of_order_requests) =
          take (length new) list_of_order_requests) as Htake.
  { rewrite take_take. f_equal. lia. }
  rewrite Htake in Hnew.
  destruct exn as [e|]; destruct Hspec as (-> & Hmid & ->).
  - destruct Hmid as (r & Hr & He).
    pose proof (lookup_lt_Some _ _ _ Hr) as Hlt. rewrite length_take in Hlt.
    rewrite lookup_take_lt in Hr by lia.
    rewrite take_take, length_fmap, length_take.
    split_and!; [lia|lia| |done|done|].
    + rewrite <- (take_drop (S (length new) `min` 2) list_of_order_requests)
        at 2.
      rewrite fmap_app. by apply prefix_app_r.
    + intros e' [= <-]. split; [lia|]. by exists r.
  - rewrite length_take in Hmid. rewrite length_fmap, length_take.
    split_and!; [lia|lia| |done| |done].
    + rewrite <- (take_drop 2 list_of_order_requests) at 2.
      rewrite fmap_app. by apply prefix_app_r.
    + intros _. lia.
Qed.

(** From the requests to the downloads: when at least two requests were
    built and the service accepts the first two, the download step waits
    for and downloads the orders created for them.  When the service
    refuses the first request, no order id exists and the download step
    raises [IndexError]. *)
Theorem submit_then_download (r0 r1 : request) (rest : list request) :
  (∀ o0 o1, create_order r0 = Ok o0 → create_order r1 = Ok o1 →
     ∃ trace,
       submit_orders create_order (r0 :: r1 :: rest) = ([o0; o1], trace, None)
       ∧ download_step (request := request) data_dir
           (collect_order_ids [o0; o1]) =
           Ok [ Gather [Wait (order_id o0); Wait (order_id o1)];
                Gather [DownloadOrder (order_id o0) data_dir;
                        DownloadOrder (order_id o1) data_dir] ])
  ∧ (∀ e, create_order r0 = Raise e →
       submit_orders create_order (r0 :: r1 :: rest) =
         ([], [Await (CreateOrder r0)], Some e)
       ∧ download_step (request := request) data_dir (collect_order_ids []) =
           Raise IndexError).
Proof.
  split.
  - intros o0 o1 H0 H1. eexists. split; [|done].
    unfold submit_orders, order_limit. simpl. by rewrite H0, H1.
  - intros e H0. split; [|done].
    unfold submit_orders, order_limit. simpl. by rewrite H0.
Qed.

End with_service.

Lemma submit_orders_bounded_witness :
  (length [Order "order-d1"; Order "order-d2"] ≤ 2)%nat.
Proof.
  apply (submit_orders_bounded sample_create_order ["d1"; "d2"; "d3"]
           [Order "order-d1"; Order "order-d2"]
           [Await (CreateOrder "d1"); Await (CreateOrder "d2")] None).
  reflexivity.
Defined.

Lemma submit_then_download_witness :
  ∃ trace,
    submit_orders sample_create_order ["d1"; "d2"; "d3"] =
      ([Order "order-d1"; Order "order-d2"], trace, None).
Proof.
  destruct (submit_then_download sample_create_order "data/use_case_1"
              "d1" "d2" ["d3"]) as [Hok _].
  destruct (Hok (Order "order-d1") (Order "order-d2") eq_refl eq_refl)
    as (trace & Hsubmit & _).
  by exists trace.
Defined.

End OrdersMore.

Module LocationsMore.
Import Locations LocationsFacts.

Section with_files.
Variable path_join : list string → string.
Variable disk : gmap string manifest.

(** The manifest of every order is on disk, and [locs] are the location
    lists made from them. *)
Local Abbreviation located download_dir ids locs :=
  (Forall2 (λ order_id location,
      ∃ m, disk !! path_join [download_dir; order_id; "manifest.json"] = Some m
           ∧ location = (λ f, path_join [data_dir path_join; order_id; path f])
                          <$> files m) ids locs).

Lemma locations_loop_located (download_dir : string) (ids : list string)
    (locs s : list (list string)) :
  located download_dir ids locs →
  locations_loop path_join disk download_dir ids s = (Ok (), s ++ locs).
Proof.
  intros Hall. revert s.
  induction Hall as [|id loc ids locs (m & Hm & ->) _ IH]; intros s; simpl.
  { by rewrite app_nil_r. }
  rewrite Hm, IH. by rewrite <- app_assoc.
Qed.

Lemma locations_loop_missing (download_dir : string) (good rest : list string)
    (bad : string) (locs s : list (list string)) :
  located download_dir good locs →
  disk !! path_join [download_dir; bad; "manifest.json"] = None →
  locations_loop path_join disk download_dir (good ++ bad :: rest) s =
    (Raise (LibraryError "FileNotFoundError"), s ++ locs).
Proof.
  intros Hall Hbad. revert s.
  induction Hall as [|id loc ids locs (m & Hm & ->) _ IH]; intros s; simpl.
  { by rewrite Hbad, app_nil_r. }
  rewrite Hm, IH. by rewrite <- app_assoc.
Qed.

Lemma locations_loop_Ok_inv (download_dir : string) (ids : list string)
    (s s' : list (list string)) :
  locations_loop path_join disk download_dir ids s = (Ok (), s') →
  ∃ locs, located download_dir ids locs.
Proof.
  revert s. induction ids as [|id ids IH]; intros s; simpl.
  { exists []. constructor. }
  destruct (disk !! _) as [m|] eqn:Hm; [|done].
  intros [locs Hlocs]%IH. eexists (_ :: locs). constructor; [|done].
  by exists m.
Qed.

(** When the manifest of an order is missing, the call raises at that
    order, and the location lists of the orders before it stay in the
    module-level list: the orders after it are not looked at. *)
Theorem get_download_locations_missing_manifest (download_dir : string)
    (good rest : list string) (bad : string) (locs s : list (list string)) :
  located download_dir good locs →
  disk !! path_join [download_dir; bad; "manifest.json"] = None →
  get_download_locations path_join disk download_dir
    (good ++ bad :: rest) s =
    (Raise (LibraryError "FileNotFoundError"), s ++ locs).
Proof.
  intros Hall Hbad. unfold get_download_locations.
  by rewrite (locations_loop_missing _ _ _ _ locs).
Qed.

(** The call returns a list exactly when every manifest is on disk; the
    list then is the module-level list, one entry longer per order, each
    new entry having one path per file of the order's manifest. *)
Theorem get_download_locations_succeeds (download_dir : string)
    (ids : list string) (s : list (list string)) :
  ((∃ r s', get_download_locations path_join disk download_dir ids s
              = (Ok r, s')) ↔
     Forall (λ order_id,
       is_Some (disk !! path_join [download_dir; order_id; "manifest.json"]))
       ids)
  ∧ (∀ r s', get_download_locations path_join disk download_dir ids s
               = (Ok r, s') →
       s' = r
       ∧ ∃ locs, r = s ++ locs
           ∧ Forall2 (λ order_id location,
               ∃ m, disk !! path_join [download_dir; order_id; "manifest.json"]
                      = Some m
                    ∧ length location = length (files m)) ids locs).
Proof.
  assert (∀ r s', get_download_locations path_join disk download_dir ids s
                    = (Ok r, s') →
            s' = r ∧ ∃ locs, r = s ++ locs ∧ located download_dir ids locs)
    as Hinv.
  { unfold get_download_locations. intros r s'.
    destruct (locations_loop _ _ _ ids s) as [[[]|e] s''] eqn:Hloop; [|done].
    intros [= <- <-]. split; [done|].
    destruct (locations_loop_Ok_inv _ _ _ _ Hloop) as [locs Hlocs].
    rewrite (locations_loop_located _ _ locs) in Hloop by done.
    injection Hloop as <-. by exists locs. }
  split.
  - split.
    + intros (r & s' & Hrun).
      destruct (Hinv _ _ Hrun) as (_ & locs & _ & Hlocs).
      clear Hrun Hinv. induction Hlocs as [|???? (m & Hm & _) _ IH].
      * constructor.
      * constructor; [by rewrite Hm|done].
    + intros Hall.
      assert (∃ locs, located download_dir ids locs) as [locs Hlocs].
      { clear Hinv. induction Hall as [|id ids Hm _ IH].
        - by exists [].
        - destruct Hm as [m Hm]. destruct IH as [locs IH].
          eexists (_ :: locs). constructor; [|done]. by exists m. }
      exists (s ++ locs), (s ++ locs). unfold get_download_locations.
      by rewrite (locations_loop_located _ _ locs).
  - intros r s' Hrun. destruct (Hinv _ _ Hrun) as (-> & locs & -> & Hlocs).
    split; [done|]. exists locs. split; [done|].
    eapply Forall2_impl; [exact Hlocs|].
    intros id loc (m & Hm & ->). exists m. split; [done|].
    by rewrite length_fmap.
Qed.

End with_files.

Lemma get_download_locations_missing_manifest_witness :
  get_download_locations sample_join sample_disk "data/use_case_1"
    ["o1"; "o3"; "o2"] []
  = (Raise (LibraryError "FileNotFoundError"),
     [] ++ [ ["data/use_case_1/o1/composite.tif";
              "data/use_case_1/o1/composite_udm2.tif"] ]).
Proof.
  apply (get_download_locations_missing_manifest sample_join sample_disk
           "data/use_case_1" ["o1"] ["o2"] "o3").
  - repeat constructor. eexists. split; reflexivity.
  - reflexivity.
Defined.

Lemma get_download_locations_succeeds_witness :
  ∃ r s', get_download_locations sample_join sample_disk "data/use_case_1"
            ["o1"; "o2"] [] = (Ok r, s').
Proof.
  apply (get_download_locations_succeeds sample_join sample_disk
           "data/use_case_1" ["o1"; "o2"] []).
  repeat constructor; by eexists.
Defined.

End LocationsMore.

Module ApiKeyFacts.
Import ApiKey.

(** The checked form never gives an empty key: an unset or empty
    PL_API_KEY gives the placeholder.  The form with a default gives the
    empty key when PL_API_KEY is set to the empty string, and that is the
    only case in which the two forms differ.  Both give the value of a
    PL_API_KEY that is set and not empty. *)
Theorem api_key_forms (placeholder : string) (environ : gmap string string) :
  placeholder ≠ "" →
  api_key_checked placeholder environ ≠ ""
  ∧ (api_key_default placeholder environ = "" ↔
       environ !! "PL_API_KEY" = Some "")
  ∧ (api_key_checked placeholder environ ≠ api_key_default placeholder environ
       ↔ environ !! "PL_API_KEY" = Some "")
  ∧ (∀ k, environ !! "PL_API_KEY" = Some k → k ≠ "" →
          api_key_checked placeholder environ = k
          ∧ api_key_default placeholder environ = k).
Proof.
  intros Hp. unfold api_key_checked, api_key_default, environ_get, truthy.
  destruct (environ !! "PL_API_KEY") as [k|]; simpl.
  - destruct (String.eqb_spec k "") as [->|Hk]; simpl.
    + split_and!; [done|done| |by intros ? [= <-]].
      split; [done|]. by intros _ ?.
    + split_and!; [done| | |by intros ? [= <-]].
      * split; [done|]. by intros [= ->].
      * split; [done|]. by intros [= ->].
  - split_and!; [done| | |done]; split; done.
Qed.

Lemma api_key_forms_witness :
  api_key_checked "PASTE_API_KEY_HERE" {[ "PL_API_KEY" := "" ]}
    = "PASTE_API_KEY_HERE"
  ∧ api_key_default "PASTE_YOUR_KEY_HERE" {[ "PL_API_KEY" := "" ]} = "".
Proof.
  destruct (api_key_forms "PASTE_YOUR_KEY_HERE" {[ "PL_API_KEY" := "" ]})
    as (_ & Hempty & _); [done|].
  split; [reflexivity|]. by apply Hempty.
Defined.

End ApiKeyFacts.
